(** * FLPerformance: the benchmark engine, its status registry and its storage

    A shallow embedding of the class [BenchmarkEngine] (benchmark.js), of the
    class [Storage] (storage.js) and of the run and export routes of the
    server (index.js), with the properties of the specification stated over
    it.

    The sources hold several versions of these files.  The embedding follows
    the current engine: the one that asks the orchestrator for a
    [LoadedModelInfo], measures inter-token delays, publishes its progress
    after every scenario and can return immediately.  An earlier engine,
    written for an orchestrator that starts one service per model, has no
    [LoadedModelInfo] and no progress updates and is not modelled.  [Storage]
    follows the version with the JSON fallback; with [useJson = false] it is
    the version that only knows SQLite.

    Conventions of the embedding.
    - A JavaScript number that the code divides is a rational ([Q]) or one of
      the non-finite values [NaN], [Infinity], [-Infinity]; the rounding of
      IEEE doubles is left out.  For the percentile index the exact product
      [K/100 * n] and the double product have the same ceiling for
      K = 50, 95, 99 and every array length up to 100000 (a scenario has at
      most 100 iterations), so the index is the one the engine computes.
    - [null] and [undefined] are [None] where the code does not tell them
      apart; truthiness ([if (x)], [x || y], [!x]) is written out per type.
    - The outside world (clocks, resource sampler, OpenAI client, timers,
      I/O faults of the store and of the callback, the backend behind the
      orchestrator) is an oracle [Env] read through a counter that every
      interaction advances.
    - Every write of the registry and every call of the progress callback or
      of the OpenAI client is also appended to a trace, so that the order of
      what an observer sees can be stated.
    - A run is one sequential computation; runs that overlap in time are not
      modelled.
    - Loggers only write log files and are left out. *)

From Stdlib Require Import QArith Qround Lqa ZArith Lia.
From stdpp Require Import gmap strings list sorting pretty.

Local Open Scope Z_scope.

(** ** JavaScript values *)

Module JS.

(** A number: finite, [NaN] or an infinity with its sign. *)
Inductive number :=
| Fin (q : Q)
| NaN
| Inf (positive : bool).

(** [x / y] on finite operands. *)
Definition div (x y : Q) : number :=
  if Qeq_bool y 0 then
    if Qeq_bool x 0 then NaN else Inf (Qle_bool 0 x)
  else Fin (x / y).

(** [n * k] for a finite, positive constant [k]. *)
Definition scale (n : number) (k : Q) : number :=
  match n with
  | Fin q => Fin (q * k)
  | NaN => NaN
  | Inf s => Inf s
  end.

(** Truthiness of a number: [0] and [NaN] are falsy. *)
Definition truthy (n : number) : bool :=
  match n with
  | Fin q => negb (Qeq_bool q 0)
  | NaN => false
  | Inf _ => true
  end.

(** Truthiness of a rational, of an integer and of a string. *)
Definition truthyQ (q : Q) : bool := negb (Qeq_bool q 0).
Definition truthyZ (z : Z) : bool := negb (z =? 0).
Definition truthyS (s : string) : bool :=
  match s with EmptyString => false | String _ _ => true end.

(** Truthiness of a value that may be [null] or [undefined]. *)
Definition truthy_opt {A} (t : A -> bool) (o : option A) : bool :=
  match o with Some a => t a | None => false end.

(** [x || d] with a default [d] of the same type. *)
Definition or_else {A} (t : A -> bool) (o : option A) (d : A) : A :=
  match o with Some a => if t a then a else d | None => d end.

(** [n || null]. *)
Definition or_null (n : number) : option number :=
  if truthy n then Some n else None.

(** [Math.round] on a non-negative rational: halves round up. *)
Definition round (q : Q) : Z := Qfloor (q + (1 # 2))%Q.

(** The number is the finite value [q]. *)
Definition is_fin (n : number) (q : Q) : Prop :=
  match n with Fin x => x == q | _ => False end.

End JS.

(** ** Data of the engine *)

(** What [orchestrator.getLoadedModelInfo] returns: the backend's canonical
    identifier of a loaded model and its alias. *)
Module LoadedModelInfo.
Record t := mk { id : string; alias : string }.
End LoadedModelInfo.

(** A model row of the store. *)
Module Descriptor.
Record t := mk { id : string; alias : string; model_id : string }.
End Descriptor.

Module Scenario.
Record t := mk { name : string; prompt : string; max_tokens : option Z }.
End Scenario.

Module Config.
Record t := mk {
  iterations : Z;
  timeout : option Z;
  temperature : option Q;
  streaming : bool
}.
End Config.

(** The [metrics] object of [runSingleInference]. *)
Module Metrics.
Record t := mk {
  startTime : Q;
  endTime : Q;
  ttft : option Z;
  tokens : Z;
  interTokenDelays : list Z;
  error : option string;
  timeout : bool
}.
End Metrics.

(** One resource sample: [{cpu, ram, gpu}], each possibly [null]. *)
Record Resources := { cpu : option Q; ram : option Q; gpu : option Q }.

Record Snapshot := { before : Resources; after : Resources }.

(** The [results] accumulator of [runScenario]. *)
Record Results := {
  iterations : list Metrics.t;
  latencies : list Q;
  ttfts : list Z;
  tokenCounts : list Z;
  allInterTokenDelays : list Z;
  errors : Z;
  timeouts : Z;
  resourceSnapshots : list Snapshot
}.

(** The [aggregated] object of [runScenario]. *)
Record Aggregated := {
  tps : Q;
  ttft : option Z;
  tpot : option Q;
  gen_tps : option Q;
  latency_p50 : option Q;
  latency_p95 : option Q;
  latency_p99 : option Q;
  error_rate : JS.number;
  timeout_rate : JS.number;
  cpu_avg : option JS.number;
  ram_avg : option JS.number;
  gpu_avg : option JS.number;
  total_tokens : Z;
  total_iterations : Z;
  successful_iterations : Z
}.

(** ** Aggregation *)

#[global] Instance Qle_dec (x y : Q) : Decision (x <= y)%Q :=
  match Qlt_le_dec y x with
  | left H => right (Qlt_not_le _ _ H)
  | right H => left H
  end.

(** [[...a].sort((a, b) => a - b)] on numbers: ascending order. *)
Definition sortQ (l : list Q) : list Q := merge_sort Qle l.
Definition sortZ (l : list Z) : list Z := merge_sort Z.le l.

(** [arr.reduce((sum, t) => sum + t, 0)]. *)
Definition sumQ (l : list Q) : Q := foldl Qplus 0%Q l.
Definition sumZ (l : list Z) : Z := foldl Z.add 0 l.

(** [calculatePercentile(sortedArray, percentile)]; [None] is the
    [undefined] of an index outside the array. *)
Definition percentileIndex (len : nat) (percentile : Q) : Z :=
  Qceiling ((percentile / 100) * inject_Z (Z.of_nat len)) - 1.

Definition calculatePercentile (sortedArray : list Q) (percentile : Q) : option Q :=
  if (length sortedArray =? 0)%nat then Some 0%Q
  else
    let index := percentileIndex (length sortedArray) percentile in
    sortedArray !! Z.to_nat (Z.max 0 index).

(** The sum and the count behind [avgCpu], [avgRam] and [avgGpu]:
    [snapshots.filter(r => r.after.f !== null).reduce((sum, r) => sum + r.after.f, 0)]. *)
Definition sampled (f : Resources -> option Q) (rs : list Snapshot) : list Snapshot :=
  filter (fun r => is_Some (f (after r))) rs.

Definition sumAfter (f : Resources -> option Q) (rs : list Snapshot) : Q :=
  foldl (fun sum r => (sum + default 0 (f (after r)))%Q) 0%Q (sampled f rs).

Definition ofNat (n : nat) : Q := inject_Z (Z.of_nat n).

Definition avgCpu (rs : list Snapshot) : option JS.number :=
  JS.or_null (JS.div (sumAfter cpu rs) (ofNat (length rs))).

Definition avgRam (rs : list Snapshot) : option JS.number :=
  JS.or_null (JS.div (sumAfter ram rs) (ofNat (length rs))).

Definition avgGpu (rs : list Snapshot) : option JS.number :=
  JS.or_null (JS.div (sumAfter gpu rs) (ofNat (length (sampled gpu rs)))).

(** The aggregate of [runScenario], from "Calculate aggregate metrics" to the
    [aggregated] literal. *)
Definition aggregate (config : Config.t) (results : Results) : Aggregated :=
  let sortedLatencies := sortQ (latencies results) in
  let sortedTtfts := sortZ (ttfts results) in
  let totalTokens := sumZ (tokenCounts results) in
  let totalTime := (sumQ (latencies results) / 1000)%Q in
  let tps := if Qlt_le_dec 0 totalTime then (inject_Z totalTokens / totalTime)%Q else 0%Q in
  let tpot :=
    if (0 <? length (allInterTokenDelays results))%nat
    then Some (inject_Z (sumZ (allInterTokenDelays results))
               / ofNat (length (allInterTokenDelays results)))%Q
    else None in
  let gen_tps :=
    match tpot with
    | Some t => if Qlt_le_dec 0 t then Some (1000 / t)%Q else None
    | None => None
    end in
  {| tps := tps;
     ttft := if (0 <? length sortedTtfts)%nat
             then sortedTtfts !! (length sortedTtfts / 2)%nat else None;
     tpot := tpot;
     gen_tps := gen_tps;
     latency_p50 := calculatePercentile sortedLatencies 50;
     latency_p95 := calculatePercentile sortedLatencies 95;
     latency_p99 := calculatePercentile sortedLatencies 99;
     error_rate := JS.scale (JS.div (inject_Z (errors results))
                                    (inject_Z (Config.iterations config))) 100;
     timeout_rate := JS.scale (JS.div (inject_Z (timeouts results))
                                      (inject_Z (Config.iterations config))) 100;
     cpu_avg := avgCpu (resourceSnapshots results);
     ram_avg := avgRam (resourceSnapshots results);
     gpu_avg := avgGpu (resourceSnapshots results);
     total_tokens := totalTokens;
     total_iterations := Config.iterations config;
     successful_iterations :=
       Config.iterations config - errors results - timeouts results |}.

Example percentile_100 :
  percentileIndex 100 50 = 49 /\ percentileIndex 100 95 = 94 /\ percentileIndex 100 99 = 98.
Proof. vm_compute. auto. Qed.

(** ** Storage *)

(** The status of a run: ['running'], ['completed'] or ['failed']. *)
Inductive Status := running | completed | failed.

#[global] Instance Status_eq_dec : EqDecision Status.
Proof. solve_decision. Defined.

(** A row of [benchmark_runs]; [hardware_info] is left out. *)
Module Run.
Record t := mk {
  id : string;
  suite_name : string;
  model_ids : list string;
  config : Config.t;
  status : Status;
  started_at : Z;
  completed_at : option Z
}.
End Run.

(** The [resultRecord] of [runBenchmark]:
    [{id, run_id, model_id, scenario, ...result.aggregated, raw_data}]. *)
Module ResultRecord.
Record t := mk {
  id : string;
  run_id : string;
  model_id : string;
  scenario : string;
  aggregated : Aggregated;
  raw_data : Results
}.
End ResultRecord.

(** A row of the SQLite table [benchmark_results]: the REAL columns are
    nullable, [raw_data] is the JSON text of the raw results. *)
Module ResultRow.
Record t := mk {
  id : string;
  run_id : string;
  model_id : string;
  scenario : string;
  tps : option JS.number;
  ttft : option JS.number;
  tpot : option JS.number;
  gen_tps : option JS.number;
  latency_p50 : option JS.number;
  latency_p95 : option JS.number;
  latency_p99 : option JS.number;
  error_rate : option JS.number;
  timeout_rate : option JS.number;
  cpu_avg : option JS.number;
  ram_avg : option JS.number;
  gpu_avg : option JS.number;
  raw_data : option Results;
  created_at : Z
}.
End ResultRow.

Module LogEntry.
Record t := mk {
  id : Z;
  entity_type : string;
  entity_id : string;
  level : string;
  message : string;
  created_at : Z
}.
End LogEntry.

(** A result as the store hands it back: the object kept by the JSON
    store ([{...result, created_at}]) or a row of the SQLite table. *)
Inductive StoredResult :=
| Kept (r : ResultRecord.t) (created_at : Z)
| Row (r : ResultRow.t).

Module Storage.

Record t := mk {
  useJson : bool;
  models : gmap string Descriptor.t;
  benchmark_runs : gmap string Run.t;
  benchmark_results : gmap string (list StoredResult);
  results_table : list ResultRow.t;
  logs : list LogEntry.t
}.

Definition empty (useJson : bool) : t := mk useJson ∅ ∅ ∅ [] [].

(** [value || null] for the binding of a REAL column. *)
Definition bind (v : option JS.number) : option JS.number :=
  match v with
  | Some n => JS.or_null n
  | None => None
  end.

Definition real (q : Q) : option JS.number := Some (JS.Fin q).
Definition int (z : Z) : option JS.number := Some (JS.Fin (inject_Z z)).

Definition getModel (st : t) (id : string) : option Descriptor.t :=
  models st !! id.

Definition saveBenchmarkRun (st : t) (run : Run.t) : t :=
  mk (useJson st) (models st) (<[Run.id run := run]> (benchmark_runs st))
     (benchmark_results st) (results_table st) (logs st).

(** [updateBenchmarkRun(id, {status, completed_at})]; an unknown id is left
    alone by both stores. *)
Definition updateBenchmarkRun (st : t) (id : string) (status : Status) (completed_at : Z) : t :=
  mk (useJson st) (models st)
     (alter (fun run => Run.mk (Run.id run) (Run.suite_name run) (Run.model_ids run)
                               (Run.config run) status (Run.started_at run)
                               (Some completed_at))
            id (benchmark_runs st))
     (benchmark_results st) (results_table st) (logs st).

Definition getBenchmarkRun (st : t) (id : string) : option Run.t :=
  benchmark_runs st !! id.

(** The row that the INSERT of [saveBenchmarkResult] binds. *)
Definition toRow (result : ResultRecord.t) (now : Z) : ResultRow.t :=
  let a := ResultRecord.aggregated result in
  ResultRow.mk
    (ResultRecord.id result)
    (ResultRecord.run_id result)
    (ResultRecord.model_id result)
    (ResultRecord.scenario result)
    (bind (real (tps a)))
    (bind (ttft a ≫= int))
    (bind (tpot a ≫= real))
    (bind (gen_tps a ≫= real))
    (bind (latency_p50 a ≫= real))
    (bind (latency_p95 a ≫= real))
    (bind (latency_p99 a ≫= real))
    (bind (Some (error_rate a)))
    (bind (Some (timeout_rate a)))
    (bind (cpu_avg a))
    (bind (ram_avg a))
    (bind (gpu_avg a))
    (Some (ResultRecord.raw_data result))
    now.

Definition saveBenchmarkResult (st : t) (result : ResultRecord.t) (now : Z) : t :=
  if useJson st then
    let run_id := ResultRecord.run_id result in
    let kept := default [] (benchmark_results st !! run_id) in
    mk (useJson st) (models st) (benchmark_runs st)
       (<[run_id := kept ++ [Kept result now]]> (benchmark_results st))
       (results_table st) (logs st)
  else
    mk (useJson st) (models st) (benchmark_runs st) (benchmark_results st)
       (results_table st ++ [toRow result now]) (logs st).

Definition getBenchmarkResults (st : t) (runId : string) : list StoredResult :=
  if useJson st then default [] (benchmark_results st !! runId)
  else Row <$> filter (fun r => ResultRow.run_id r = runId) (results_table st).

Definition created (r : StoredResult) : Z :=
  match r with
  | Kept _ at_ => at_
  | Row row => ResultRow.created_at row
  end.

(** Newest first. *)
Definition newer (a b : StoredResult) : Prop := created b <= created a.

#[global] Instance newer_dec a b : Decision (newer a b).
Proof. unfold newer. apply _. Defined.

Definition getAllBenchmarkResults (st : t) : list StoredResult :=
  if useJson st then
    merge_sort newer (concat (snd <$> map_to_list (benchmark_results st)))
  else merge_sort newer (Row <$> results_table st).

(** [saveLog]; the JSON store keeps the last 1000 entries. *)
Definition saveLog (st : t) (entityType entityId level message : string) (now : Z) : t :=
  let entry := LogEntry.mk (Z.of_nat (length (logs st)) + 1)
                           entityType entityId level message now in
  let logs' := logs st ++ [entry] in
  mk (useJson st) (models st) (benchmark_runs st) (benchmark_results st) (results_table st)
     (if useJson st then drop (length logs' - 1000)%nat logs' else logs').

(** The fields of a result read back from the store; [None] is [null] (or a
    column the table does not have). *)
Definition read_error_rate (r : StoredResult) : option JS.number :=
  match r with
  | Kept rec _ => Some (error_rate (ResultRecord.aggregated rec))
  | Row row => ResultRow.error_rate row
  end.

Definition read_timeout_rate (r : StoredResult) : option JS.number :=
  match r with
  | Kept rec _ => Some (timeout_rate (ResultRecord.aggregated rec))
  | Row row => ResultRow.timeout_rate row
  end.

(** [exportToJSON(runId)]: [{run, results, exported_at}]. *)
Record Export := {
  export_run : option Run.t;
  export_results : list StoredResult;
  exported_at : Z
}.

Definition exportToJSON (st : t) (runId : string) (now : Z) : Export :=
  {| export_run := getBenchmarkRun st runId;
     export_results := getBenchmarkResults st runId;
     exported_at := now |}.

(** A property of a result object as [exportToCSV] reads it. *)
Inductive Value :=
| Null
| Num (n : JS.number)
| Str (s : string)
| Obj (raw : Results).

Definition nullable (v : option JS.number) : Value :=
  match v with Some n => Num n | None => Null end.

(** [Object.keys] with the values, in the order of the object literal of
    [runScenario] and [runBenchmark], or of the columns of the table. *)
Definition fields (r : StoredResult) : list (string * Value) :=
  match r with
  | Kept rec at_ =>
      let a := ResultRecord.aggregated rec in
      [ ("id", Str (ResultRecord.id rec));
        ("run_id", Str (ResultRecord.run_id rec));
        ("model_id", Str (ResultRecord.model_id rec));
        ("scenario", Str (ResultRecord.scenario rec));
        ("tps", Num (JS.Fin (tps a)));
        ("ttft", nullable (ttft a ≫= int));
        ("tpot", nullable (tpot a ≫= real));
        ("gen_tps", nullable (gen_tps a ≫= real));
        ("latency_p50", nullable (latency_p50 a ≫= real));
        ("latency_p95", nullable (latency_p95 a ≫= real));
        ("latency_p99", nullable (latency_p99 a ≫= real));
        ("error_rate", Num (error_rate a));
        ("timeout_rate", Num (timeout_rate a));
        ("cpu_avg", nullable (cpu_avg a));
        ("ram_avg", nullable (ram_avg a));
        ("gpu_avg", nullable (gpu_avg a));
        ("total_tokens", Num (JS.Fin (inject_Z (total_tokens a))));
        ("total_iterations", Num (JS.Fin (inject_Z (total_iterations a))));
        ("successful_iterations", Num (JS.Fin (inject_Z (successful_iterations a))));
        ("raw_data", Obj (ResultRecord.raw_data rec));
        ("created_at", Num (JS.Fin (inject_Z at_))) ]
  | Row row =>
      [ ("id", Str (ResultRow.id row));
        ("run_id", Str (ResultRow.run_id row));
        ("model_id", Str (ResultRow.model_id row));
        ("scenario", Str (ResultRow.scenario row));
        ("tps", nullable (ResultRow.tps row));
        ("ttft", nullable (ResultRow.ttft row));
        ("tpot", nullable (ResultRow.tpot row));
        ("gen_tps", nullable (ResultRow.gen_tps row));
        ("latency_p50", nullable (ResultRow.latency_p50 row));
        ("latency_p95", nullable (ResultRow.latency_p95 row));
        ("latency_p99", nullable (ResultRow.latency_p99 row));
        ("error_rate", nullable (ResultRow.error_rate row));
        ("timeout_rate", nullable (ResultRow.timeout_rate row));
        ("cpu_avg", nullable (ResultRow.cpu_avg row));
        ("ram_avg", nullable (ResultRow.ram_avg row));
        ("gpu_avg", nullable (ResultRow.gpu_avg row));
        ("raw_data", match ResultRow.raw_data row with Some raw => Obj raw | None => Null end);
        ("created_at", Num (JS.Fin (inject_Z (ResultRow.created_at row)))) ]
  end%string.

(** [r[h]]; [None] is [undefined]. *)
Fixpoint property (h : string) (object : list (string * Value)) : option Value :=
  match object with
  | [] => None
  | (k, v) :: object => if String.eqb k h then Some v else property h object
  end.

(** [val.includes(',')]. *)
Fixpoint includesComma (s : string) : bool :=
  match s with
  | EmptyString => false
  | String c s => Ascii.eqb c (Ascii.ascii_of_nat 44) || includesComma s
  end.

Definition quote : string := String (Ascii.ascii_of_nat 34) EmptyString.
Definition newline : string := String (Ascii.ascii_of_nat 10) EmptyString.

Section Csv.

(** The text of a number, as [Array.prototype.join] makes it. *)
Variable show : JS.number -> string.

Definition cell (val : option Value) : string :=
  match val with
  | None | Some Null => EmptyString
  | Some (Str s) => if includesComma s then quote ++ s ++ quote else s
  | Some (Num n) => show n
  | Some (Obj _) => "[object Object]"
  end%string.

(** [exportToCSV(runId)]. *)
Definition exportToCSV (st : t) (runId : string) : string :=
  let results := getBenchmarkResults st runId in
  match results with
  | [] => EmptyString
  | first :: _ =>
      let headers :=
        List.filter (fun k => negb (String.eqb k "raw_data")) (fst <$> fields first) in
      let rows :=
        (fun r => String.concat "," ((fun h => cell (property h (fields r))) <$> headers))
          <$> results in
      String.concat newline (String.concat "," headers :: rows)
  end.

End Csv.

(** [getAllBenchmarkRuns()]: the runs by [started_at], latest first.  Runs
    that started in the same millisecond come in an order that the model
    does not fix. *)
Definition later (a b : Run.t) : Prop := Run.started_at b <= Run.started_at a.

#[global] Instance later_dec a b : Decision (later a b).
Proof. unfold later. apply _. Defined.

Definition getAllBenchmarkRuns (st : t) : list Run.t :=
  merge_sort later (snd <$> map_to_list (benchmark_runs st)).

(** [getLogs(entityType, entityId, limit)]: the entries of one entity, newest
    first, at most [limit] of them. *)
Definition newerLog (a b : LogEntry.t) : Prop :=
  LogEntry.created_at b <= LogEntry.created_at a.

#[global] Instance newerLog_dec a b : Decision (newerLog a b).
Proof. unfold newerLog. apply _. Defined.

Definition getLogs (st : t) (entityType entityId : string) (limit : nat)
  : list LogEntry.t :=
  take limit
    (merge_sort newerLog
       (filter (fun log => LogEntry.entity_type log = entityType
                           ∧ LogEntry.entity_id log = entityId)
               (logs st))).

End Storage.

(** ** The world around the engine *)

(** The object given to [client.chat.completions.create]. *)
Record Request := {
  model : string;
  content : string;
  max_tokens : Z;
  temperature : Q;
  stream : bool
}.

(** A chunk of a streamed completion: [chunk.choices[0]?.delta?.content] and
    the [Date.now()] at which the loop handles it. *)
Record Chunk := { delta : option string; receivedAt : Z }.

(** What awaiting [create] does: it rejects with an error of the given
    [message], it resolves to a stream of chunks that ends or fails, or it
    resolves to a completion with [choices[0]?.message?.content] and
    [usage?.completion_tokens]. *)
Inductive Reply :=
| Rejects (message : option string)
| Streams (chunks : list Chunk) (failure : option (option string))
| Completes (text : option string) (completion_tokens : option Z).

(** One call of [runSingleInference] seen from outside: the two clocks on
    entry, the behaviour of the client, whether the timeout callback has run
    by the time [runScenario] reads [metrics.timeout], and
    [performance.now()] on exit. *)
Record Inference := {
  perfStart : Q;
  dateStart : Z;
  create : Request -> Reply;
  timerFired : bool;
  perfEnd : Q
}.

(** The answer of [orchestrator.checkModelHealth]. *)
Record Health := { healthy : bool; health_error : option string }.

(** The oracle: entry [n] answers the [n]-th interaction. *)
Record Env := {
  fault : nat -> option string;
  date : nat -> Z;
  uuid : nat -> string;
  sample : nat -> Resources;
  inference : nat -> Inference;
  backendLoad : nat -> string -> LoadedModelInfo.t + string;
  backendHealth : nat -> string -> Health
}.

(** An entry of [runningBenchmarks]. *)
Module Entry.
Record t := mk { id : string; status : Status; progress : Z; error : option string }.
End Entry.

(** The argument of [progressCallback]. *)
Inductive ProgressEvent :=
| Iteration (modelId scenario : string) (iteration total : Z)
| Progress (runId : string) (progress : Z).

(** What an observer of the engine sees, in order. *)
Inductive Event :=
| Published (runId : string) (entry : Entry.t)
| Notified (event : ProgressEvent)
| Sent (request : Request).

Record World := {
  tick : nat;
  store : Storage.t;
  loaded : gmap string LoadedModelInfo.t;
  runningBenchmarks : gmap string Entry.t;
  trace : list Event
}.

(** ** A state and exception monad *)

Inductive Outcome (A : Type) :=
| Returned (a : A)
| Thrown (message : string).
Arguments Returned {A} a.
Arguments Thrown {A} message.

Definition M (A : Type) : Type := World -> Outcome A * World.

Definition ret {A} (a : A) : M A := fun w => (Returned a, w).

Definition bind {A B} (m : M A) (f : A -> M B) : M B :=
  fun w =>
    match m w with
    | (Returned a, w') => f a w'
    | (Thrown e, w') => (Thrown e, w')
    end.

Definition throw {A} (message : string) : M A := fun w => (Thrown message, w).

(** [try { m } catch (error) { handler(error.message) }]. *)
Definition try_catch {A} (m : M A) (handler : string -> M A) : M A :=
  fun w =>
    match m w with
    | (Returned a, w') => (Returned a, w')
    | (Thrown e, w') => handler e w'
    end.

(** [try { m } finally { final }]. *)
Definition try_finally {A} (m : M A) (final : M unit) : M A :=
  fun w =>
    match m w with
    | (o, w') =>
        match final w' with
        | (Returned _, w'') => (o, w'')
        | (Thrown e, w'') => (Thrown e, w'')
        end
    end.

Declare Scope engine_scope.
Delimit Scope engine_scope with engine.
Notation "'let*' x ':=' m 'in' k" := (bind m (fun x => k))
  (at level 10, x pattern, m at level 100, k at level 200) : engine_scope.
Notation "m ';;;' k" := (bind m (fun _ => k))
  (at level 100, k at level 200, right associativity) : engine_scope.
Local Open Scope engine_scope.

(** A loop over a list that threads an accumulator and stops at the first
    exception. *)
Fixpoint foldM {A B} (f : B -> A -> M B) (l : list A) (b : B) : M B :=
  match l with
  | [] => ret b
  | a :: l => let* b' := f b a in foldM f l b'
  end.

Definition get {A} (f : World -> A) : M A := fun w => (Returned (f w), w).

Definition emit (e : Event) : M unit :=
  fun w => (Returned tt,
            {| tick := tick w; store := store w; loaded := loaded w;
               runningBenchmarks := runningBenchmarks w;
               trace := trace w ++ [e] |}).

Section Engine.

Variable env : Env.

(** Read the oracle and advance the counter. *)
Definition ask {A} (f : Env -> nat -> A) : M A :=
  fun w => (Returned (f env (tick w)),
            {| tick := S (tick w); store := store w; loaded := loaded w;
               runningBenchmarks := runningBenchmarks w; trace := trace w |}).

(** An interaction that may fail. *)
Definition io : M unit :=
  let* f := ask fault in
  match f with
  | Some message => throw message
  | None => ret tt
  end.

(** A read and a write of the store. *)
Definition query {A} (f : Storage.t -> A) : M A :=
  io ;;; get (fun w => f (store w)).

Definition update (f : Storage.t -> Z -> Storage.t) : M unit :=
  io ;;;
  let* now := ask date in
  fun w => (Returned tt,
            {| tick := tick w; store := f (store w) now; loaded := loaded w;
               runningBenchmarks := runningBenchmarks w; trace := trace w |}).

(** [this.runningBenchmarks.set(runId, entry)]. *)
Definition publish (runId : string) (entry : Entry.t) : M unit :=
  fun w => (Returned tt,
            {| tick := tick w; store := store w; loaded := loaded w;
               runningBenchmarks := <[runId := entry]> (runningBenchmarks w);
               trace := trace w ++ [Published runId entry] |}).

(** [if (progressCallback) progressCallback(event)]; the callback is the
    caller's and may throw. *)
Definition notify (progressCallback : bool) (event : ProgressEvent) : M unit :=
  if progressCallback then emit (Notified event) ;;; io else ret tt.

(** *** The orchestrator

    Modelled from the spec: the orchestrator of this engine
    ([getLoadedModelInfo], [loadModel], [checkModelHealth]) is not among the
    sources.  The specification gives it a cache from descriptor ids to
    [LoadedModelInfo]; [load] asks the backend, fills the cache and fails on
    any backend error; [check_health] probes the backend. *)
Definition getLoadedModelInfo (modelId : string) : M (option LoadedModelInfo.t) :=
  get (fun w => loaded w !! modelId).

Definition loadModel (modelId name : string) : M LoadedModelInfo.t :=
  io ;;;
  let* answer := ask (fun e n => backendLoad e n name) in
  match answer with
  | inl info =>
      fun w => (Returned info,
                {| tick := tick w; store := store w;
                   loaded := <[modelId := info]> (loaded w);
                   runningBenchmarks := runningBenchmarks w; trace := trace w |})
  | inr message => throw message
  end.

Definition checkModelHealth (name : string) : M Health :=
  io ;;; ask (fun e n => backendHealth e n name).

(** *** One inference *)

Definition truthyError (error : option string) : bool := JS.truthy_opt JS.truthyS error.

(** The body of [for await (const chunk of stream)]; the loop state is
    [firstTokenTime], [lastTokenTime] and the metrics. *)
Definition onChunk (startTime : Z) (state : option Z * option Z * Metrics.t) (chunk : Chunk)
  : option Z * option Z * Metrics.t :=
  let '(firstTokenTime, lastTokenTime, metrics) := state in
  if JS.truthy_opt JS.truthyS (delta chunk) then
    let currentTokenTime := receivedAt chunk in
    if negb (JS.truthy_opt JS.truthyZ firstTokenTime) then
      (Some currentTokenTime, Some currentTokenTime,
       Metrics.mk (Metrics.startTime metrics) (Metrics.endTime metrics)
                  (Some (currentTokenTime - startTime))
                  (Metrics.tokens metrics + 1)
                  (Metrics.interTokenDelays metrics)
                  (Metrics.error metrics) (Metrics.timeout metrics))
    else
      let interTokenDelay := currentTokenTime - default 0 lastTokenTime in
      (firstTokenTime, Some currentTokenTime,
       Metrics.mk (Metrics.startTime metrics) (Metrics.endTime metrics)
                  (Metrics.ttft metrics)
                  (Metrics.tokens metrics + 1)
                  (Metrics.interTokenDelays metrics ++ [interTokenDelay])
                  (Metrics.error metrics) (Metrics.timeout metrics))
  else state.

(** The [catch] block and the normal exit of [runSingleInference]. *)
Definition caught (outside : Inference) (metrics : Metrics.t) (message : option string)
  : Metrics.t :=
  Metrics.mk (Metrics.startTime metrics) (perfEnd outside) (Metrics.ttft metrics)
             (Metrics.tokens metrics) (Metrics.interTokenDelays metrics)
             message (timerFired outside).

Definition finished (outside : Inference) (metrics : Metrics.t) : Metrics.t :=
  Metrics.mk (Metrics.startTime metrics) (perfEnd outside) (Metrics.ttft metrics)
             (Metrics.tokens metrics) (Metrics.interTokenDelays metrics)
             (Metrics.error metrics) (timerFired outside).

(** A reply of the wrong shape makes the code that reads it throw a
    [TypeError]. *)
Definition notIterable : option string := Some "stream is not async iterable"%string.
Definition noChoices : option string :=
  Some "Cannot read properties of undefined (reading '0')"%string.

(** [runSingleInference(modelInfo, scenario, config)] against one behaviour
    of the outside: the request it sends and the metrics it returns. *)
Definition singleInference (modelInfo : LoadedModelInfo.t) (scenario : Scenario.t)
    (config : Config.t) (outside : Inference) : Request * Metrics.t :=
  let metrics := Metrics.mk (perfStart outside) 0%Q None 0 [] None false in
  let startTime := dateStart outside in
  let modelName := LoadedModelInfo.id modelInfo in
  if Config.streaming config then
    let request :=
      {| model := modelName;
         content := Scenario.prompt scenario;
         max_tokens := JS.or_else JS.truthyZ (Scenario.max_tokens scenario) 100;
         temperature := JS.or_else JS.truthyQ (Config.temperature config) (7 # 10);
         stream := true |} in
    (request,
     match create outside request with
     | Rejects message => caught outside metrics message
     | Streams chunks failure =>
         let '(_, _, metrics) := foldl (onChunk startTime) (None, None, metrics) chunks in
         match failure with
         | Some message => caught outside metrics message
         | None => finished outside metrics
         end
     | Completes _ _ => caught outside metrics notIterable
     end)
  else
    let request :=
      {| model := modelName;
         content := Scenario.prompt scenario;
         max_tokens := JS.or_else JS.truthyZ (Scenario.max_tokens scenario) 100;
         temperature := JS.or_else JS.truthyQ (Config.temperature config) (7 # 10);
         stream := false |} in
    (request,
     match create outside request with
     | Rejects message => caught outside metrics message
     | Streams _ _ => caught outside metrics noChoices
     | Completes _ completion_tokens =>
         finished outside
           (Metrics.mk (Metrics.startTime metrics) (Metrics.endTime metrics) None
                       (JS.or_else JS.truthyZ completion_tokens 0)
                       (Metrics.interTokenDelays metrics)
                       (Metrics.error metrics) (Metrics.timeout metrics))
     end).

Definition runSingleInference (modelInfo : LoadedModelInfo.t) (scenario : Scenario.t)
    (config : Config.t) : M Metrics.t :=
  let* outside := ask inference in
  let '(request, metrics) := singleInference modelInfo scenario config outside in
  emit (Sent request) ;;;
  ret metrics.

(** [collectResourceMetrics()]: it never throws. *)
Definition collectResourceMetrics : M Resources := ask sample.

(** *** One scenario *)

Definition noResults : Results :=
  {| iterations := []; latencies := []; ttfts := []; tokenCounts := [];
     allInterTokenDelays := []; errors := 0; timeouts := 0; resourceSnapshots := [] |}.

(** The part of the loop body that records an iteration in [results]. *)
Definition record (results : Results) (metrics : Metrics.t)
    (resourcesBefore resourcesAfter : Resources) : Results :=
  let latency := (Metrics.endTime metrics - Metrics.startTime metrics)%Q in
  let ok := negb (truthyError (Metrics.error metrics)) && negb (Metrics.timeout metrics) in
  {| iterations := iterations results ++ [metrics];
     latencies := if ok then latencies results ++ [latency] else latencies results;
     ttfts := if ok then
                match Metrics.ttft metrics with
                | Some t => ttfts results ++ [t]
                | None => ttfts results
                end
              else ttfts results;
     tokenCounts := if ok then tokenCounts results ++ [Metrics.tokens metrics]
                    else tokenCounts results;
     allInterTokenDelays :=
       if ok && (0 <? length (Metrics.interTokenDelays metrics))%nat
       then allInterTokenDelays results ++ Metrics.interTokenDelays metrics
       else allInterTokenDelays results;
     errors := if truthyError (Metrics.error metrics) then errors results + 1
               else errors results;
     timeouts := if Metrics.timeout metrics then timeouts results + 1
                 else timeouts results;
     resourceSnapshots :=
       resourceSnapshots results
       ++ [{| before := resourcesBefore; after := resourcesAfter |}] |}.

Definition iteration (modelId : string) (modelInfo : LoadedModelInfo.t)
    (scenario : Scenario.t) (config : Config.t) (progressCallback : bool)
    (results : Results) (i : Z) : M Results :=
  notify progressCallback
    (Iteration modelId (Scenario.name scenario) (i + 1) (Config.iterations config)) ;;;
  let* resourcesBefore := collectResourceMetrics in
  let* metrics := runSingleInference modelInfo scenario config in
  let* resourcesAfter := collectResourceMetrics in
  ret (record results metrics resourcesBefore resourcesAfter).

(** [runScenario(modelId, scenario, config, progressCallback)]:
    [{aggregated, raw}]. *)
Definition runScenario (modelId : string) (scenario : Scenario.t) (config : Config.t)
    (progressCallback : bool) : M (Aggregated * Results) :=
  let* model := query (fun st => Storage.getModel st modelId) in
  match model with
  | None => throw ("Model " ++ modelId ++ " not found in storage.")%string
  | Some model =>
      let* modelInfo := getLoadedModelInfo modelId in
      match modelInfo with
      | None =>
          throw ("Model " ++ modelId
                 ++ " not loaded in Foundry Local. Please load the model first.")%string
      | Some modelInfo =>
          let* results :=
            foldM (iteration modelId modelInfo scenario config progressCallback)
                  (seqZ 0 (Config.iterations config)) noResults in
          ret (aggregate config results, results)
      end
  end.

(** *** A run *)

(** A suite; [scenarios] may be missing from the suite file. *)
Record Suite := { scenarios : option (list Scenario.t) }.

(** [a || b] on strings. *)
Definition orS (a b : string) : string := if JS.truthyS a then a else b.

(** The helper [ensureModelReady(modelId, model)] of [runBenchmark]. *)
Definition ensureModelReady (runId modelId : string) (model : Descriptor.t)
  : M (option LoadedModelInfo.t) :=
  let name := orS (Descriptor.model_id model) (Descriptor.alias model) in
  let* cached := getLoadedModelInfo modelId in
  let* modelInfo :=
    match cached with
    | Some modelInfo => ret (Some modelInfo)
    | None =>
        try_catch
          (let* modelInfo := loadModel modelId name in ret (Some modelInfo))
          (fun message =>
             update (fun st =>
               Storage.saveLog st "benchmark" runId "error"
                 ("Auto-load failed for " ++ name ++ ": " ++ message)%string) ;;;
             ret None)
    end in
  match modelInfo with
  | None => ret None
  | Some modelInfo =>
      let probe := orS (LoadedModelInfo.alias modelInfo)
                       (orS (Descriptor.alias model) (Descriptor.model_id model)) in
      let* health := checkModelHealth probe in
      let* health :=
        if healthy health then ret health
        else
          try_catch
            (loadModel modelId name ;;; checkModelHealth probe)
            (fun _ => ret health) in
      if healthy health then ret (Some modelInfo)
      else
        update (fun st =>
          Storage.saveLog st "benchmark" runId "error"
            ("Model " ++ orS (LoadedModelInfo.alias modelInfo) (Descriptor.alias model)
             ++ " (" ++ modelId ++ ") service is unhealthy")%string) ;;;
        ret None
  end.

(** [Math.round((completedTasks / totalTasks) * 100)], or 0 without tasks. *)
Definition progressOf (totalTasks completedTasks : Z) : Z :=
  if 0 <? totalTasks
  then JS.round ((inject_Z completedTasks / inject_Z totalTasks) * 100)%Q
  else 0.

(** The helper [updateProgress()] of [runBenchmark]. *)
Definition updateProgress (runId : string) (progressCallback : bool)
    (totalTasks completedTasks : Z) : M unit :=
  let progress := progressOf totalTasks completedTasks in
  publish runId (Entry.mk runId running progress None) ;;;
  notify progressCallback (Progress runId progress).

(** The body of the loop over [suite.scenarios]: a [try] that runs the
    scenario and saves its result, a [catch] that logs, a [finally] that
    counts the task and updates the progress. *)
Definition scenarioTask (runId modelId : string) (config : Config.t)
    (progressCallback : bool) (totalTasks : Z)
    (state : Z * list ResultRecord.t) (scenario : Scenario.t)
  : M (Z * list ResultRecord.t) :=
  let '(completedTasks, allResults) := state in
  let* allResults :=
    try_finally
      (try_catch
         (let* result := runScenario modelId scenario config progressCallback in
          let* id := ask uuid in
          let resultRecord :=
            ResultRecord.mk id runId modelId (Scenario.name scenario)
                            (fst result) (snd result) in
          update (fun st => Storage.saveBenchmarkResult st resultRecord) ;;;
          ret (allResults ++ [resultRecord]))
         (fun message =>
            update (fun st =>
              Storage.saveLog st "benchmark" runId "error"
                ("Scenario " ++ Scenario.name scenario ++ " failed for " ++ modelId
                 ++ ": " ++ message)%string) ;;;
            ret allResults))
      (updateProgress runId progressCallback totalTasks (completedTasks + 1)) in
  ret (completedTasks + 1, allResults).

(** The body of the loop over [modelIds]. *)
Definition modelTask (runId : string) (suite : Suite) (config : Config.t)
    (progressCallback : bool) (totalTasks : Z)
    (state : Z * list ResultRecord.t) (modelId : string)
  : M (Z * list ResultRecord.t) :=
  let* model := query (fun st => Storage.getModel st modelId) in
  match model with
  | None =>
      update (fun st =>
        Storage.saveLog st "benchmark" runId "error"
          ("Model " ++ modelId ++ " not found in storage")%string) ;;;
      ret state
  | Some model =>
      let* modelInfo := ensureModelReady runId modelId model in
      match modelInfo with
      | None => ret state
      | Some modelInfo =>
          match scenarios suite with
          | None => throw "suite.scenarios is not iterable"
          | Some scenarios =>
              foldM (scenarioTask runId modelId config progressCallback totalTasks)
                    scenarios state
          end
      end
  end.

Definition totalTasksOf (modelIds : list string) (suite : Suite) : Z :=
  Z.of_nat (length modelIds) * Z.of_nat (length (default [] (scenarios suite))).

(** The closure [runTask] of [runBenchmark]. *)
Definition runTask (runId : string) (modelIds : list string) (suiteName : string)
    (suite : Suite) (config : Config.t) (progressCallback : bool)
  : M (string * list ResultRecord.t) :=
  try_catch
    (let* started_at := ask date in
     update (fun st _ =>
       Storage.saveBenchmarkRun st
         (Run.mk runId suiteName modelIds config running started_at None)) ;;;
     let totalTasks := totalTasksOf modelIds suite in
     let* state :=
       foldM (modelTask runId suite config progressCallback totalTasks)
             modelIds (0, []) in
     update (fun st completedAt => Storage.updateBenchmarkRun st runId completed completedAt) ;;;
     publish runId (Entry.mk runId completed 100 None) ;;;
     ret (runId, snd state))
    (fun message =>
       update (fun st now => Storage.updateBenchmarkRun st runId failed now) ;;;
       publish runId (Entry.mk runId failed 0 (Some message)) ;;;
       throw message).

(** [runBenchmark(modelIds, suiteName, suite, config, progressCallback,
    options)]: the run id and, unless [returnImmediately], the results.  With
    [returnImmediately] the task is started and its failure is not awaited. *)
Definition runBenchmark (modelIds : list string) (suiteName : string) (suite : Suite)
    (config : Config.t) (progressCallback : bool) (returnImmediately : bool)
  : M (string * list ResultRecord.t) :=
  let* runId := ask uuid in
  publish runId (Entry.mk runId running 0 None) ;;;
  if returnImmediately then
    try_catch
      (runTask runId modelIds suiteName suite config progressCallback ;;; ret (runId, []))
      (fun _ => ret (runId, []))
  else runTask runId modelIds suiteName suite config progressCallback.

(** [getBenchmarkStatus(runId)]. *)
Definition getBenchmarkStatus (runId : string) : M (option Entry.t) :=
  get (fun w => runningBenchmarks w !! runId).

(** *** The routes of the server that read runs *)

Inductive Body :=
| ErrorBody (error : string)
| RunBody (run : Run.t) (results : list StoredResult)
| ExportBody (data : Storage.Export)
| CsvBody (csv : string).

Record Response := { statusCode : Z; body : Body }.

(** The [catch] of every route: [res.status(500).json({ error })]. *)
Definition orInternalError (route : M Response) : M Response :=
  try_catch route (fun message => ret {| statusCode := 500; body := ErrorBody message |}).

(** [GET /api/benchmarks/runs/:id]; the aliases added to the results are
    left out. *)
Definition getRunRoute (id : string) : M Response :=
  orInternalError
    (let* run := query (fun st => Storage.getBenchmarkRun st id) in
     match run with
     | None => ret {| statusCode := 404; body := ErrorBody "Run not found" |}
     | Some run =>
         let* results := query (fun st => Storage.getBenchmarkResults st id) in
         ret {| statusCode := 200; body := RunBody run results |}
     end).

(** [GET /api/benchmarks/runs/:id/export/json]. *)
Definition exportJsonRoute (id : string) : M Response :=
  orInternalError
    (io ;;;
     let* now := ask date in
     let* data := get (fun w => Storage.exportToJSON (store w) id now) in
     ret {| statusCode := 200; body := ExportBody data |}).

(** [GET /api/benchmarks/runs/:id/export/csv]. *)
Definition exportCsvRoute (show : JS.number -> string) (id : string) : M Response :=
  orInternalError
    (let* csv := query (fun st => Storage.exportToCSV show st id) in
     ret {| statusCode := 200; body := CsvBody csv |}).

End Engine.

(** * The vocabulary of the properties *)

(** ** Notions *)

(** The index of the specification, [max(0, ceil(K/100 × n) − 1)], in
    integer arithmetic. *)
Definition specIndex (n : nat) (K : Z) : nat :=
  Z.to_nat (Z.max 0 ((K * Z.of_nat n + 99) / 100 - 1)).

(** The percentile [latency_pK] of an aggregate, for K = 50, 95 and 99. *)
Definition latency_p (K : Z) (aggregated : Aggregated) : option Q :=
  if K =? 50 then latency_p50 aggregated
  else if K =? 95 then latency_p95 aggregated
  else latency_p99 aggregated.

(** An iteration counts as successful when it has no error and no timeout. *)
Definition succeeded (metrics : Metrics.t) : bool :=
  negb (truthyError (Metrics.error metrics)) && negb (Metrics.timeout metrics).

Definition latencyOf (metrics : Metrics.t) : Q :=
  (Metrics.endTime metrics - Metrics.startTime metrics)%Q.

Definition countIf (p : Metrics.t → bool) (l : list Metrics.t) : Z :=
  Z.of_nat (length (List.filter p l)).

(** [avg] is [null] without samples and when the mean is 0, and is the mean
    otherwise. *)
Definition nullWhenZero (avg : option JS.number) (mean : JS.number)
    (samples : list Snapshot) : Prop :=
  (samples = [] → avg = None) ∧
  (∀ q, mean = JS.Fin q → (q == 0)%Q → avg = None) ∧
  (∀ q, mean = JS.Fin q → ¬ (q == 0)%Q → avg = Some (JS.Fin q)).

(** The registry after the writes among the events [l]. *)
Definition replay (l : list Event) (registry : gmap string Entry.t) : gmap string Entry.t :=
  foldl (fun registry e =>
           match e with
           | Published runId entry => <[runId := entry]> registry
           | _ => registry
           end) registry l.

(** The entries written to the registry and the progress values given to
    the callback, among some events. *)
Definition published (l : list Event) : list Entry.t :=
  omap (fun e => match e with Published _ entry => Some entry | _ => None end) l.

Definition notified (l : list Event) : list Z :=
  omap (fun e => match e with Notified (Progress _ p) => Some p | _ => None end) l.

(** An entry of the registry is well formed: progress 100 when completed,
    progress 0 when failed, a progress between 0 and 100 when running. *)
Definition wellFormed (e : Entry.t) : Prop :=
  (Entry.status e = completed → Entry.progress e = 100) ∧
  (Entry.status e = failed → Entry.progress e = 0) ∧
  (Entry.status e = running → 0 <= Entry.progress e <= 100).

Definition registryOk (registry : gmap string Entry.t) : Prop :=
  ∀ runId e, registry !! runId = Some e → wellFormed e.

(** ** Concrete worlds *)

(** A backend that streams two tokens, 50 ms and 70 ms after the request,
    or completes with 42 tokens; the call takes 130 ms. *)
Definition steady : Inference :=
  {| perfStart := 0; dateStart := 0;
     create := fun request =>
       if stream request
       then Streams [ {| delta := Some "a"%string; receivedAt := 50 |};
                      {| delta := Some "b"%string; receivedAt := 70 |} ] None
       else Completes (Some "ab"%string) (Some 42);
     timerFired := false; perfEnd := 130 |}.

(** A backend that does not answer: after [timeout] ms the timer aborts the
    request and sets [metrics.timeout]; the aborted [create] rejects with the
    abort error of the client. *)
Definition hanging (timeout : Z) : Inference :=
  {| perfStart := 0; dateStart := 0;
     create := fun _ => Rejects (Some "Request was aborted."%string);
     timerFired := true; perfEnd := inject_Z timeout |}.

(** An outside without I/O faults in which every inference behaves like
    [outside] and the sampler reads 0% CPU, 20% RAM and no GPU; [failing n]
    is the same outside whose [n]-th interaction throws. *)
Definition calm (outside : Inference) : Env :=
  {| fault := fun _ => None;
     date := fun n => Z.of_nat n;
     uuid := fun n => ("id-" ++ pretty n)%string;
     sample := fun _ => {| cpu := Some 0%Q; ram := Some 20%Q; gpu := None |};
     inference := fun _ => outside;
     backendLoad := fun _ name => inl (LoadedModelInfo.mk name name);
     backendHealth := fun _ _ => {| healthy := true; health_error := None |} |}.

Definition failing (n : nat) (outside : Inference) : Env :=
  {| fault := fun k => if (k =? n)%nat then Some "SQLITE_IOERR"%string else None;
     date := date (calm outside);
     uuid := uuid (calm outside);
     sample := sample (calm outside);
     inference := inference (calm outside);
     backendLoad := backendLoad (calm outside);
     backendHealth := backendHealth (calm outside) |}.

(** A world with one registered model, [m1], that the orchestrator has
    loaded under the canonical identifier of the backend. *)
Definition phi : Descriptor.t := Descriptor.mk "m1" "phi-3-mini" "phi-3-mini-4k-instruct".
Definition phiLoaded : LoadedModelInfo.t :=
  LoadedModelInfo.mk "Phi-3-mini-4k-instruct-generic-cpu:1" "phi-3-mini".

Definition initially (useJson : bool) : World :=
  {| tick := 0;
     store := Storage.mk useJson {[ "m1"%string := phi ]} ∅ ∅ [] [];
     loaded := {[ "m1"%string := phiLoaded ]};
     runningBenchmarks := ∅;
     trace := [] |}.

Definition hello : Scenario.t := Scenario.mk "hello" "Hi" (Some 20).

Definition threeTimes (streaming : bool) : Config.t :=
  Config.mk 3 (Some 30000) (Some (7 # 10)%Q) streaming.

Definition helloSuite : Suite := {| scenarios := Some [hello] |}.

(** A sample of an idle machine: 0% CPU. *)
Definition idle : Snapshot :=
  {| before := {| cpu := Some 0%Q; ram := Some 20%Q; gpu := None |};
     after := {| cpu := Some 0%Q; ram := Some 20%Q; gpu := None |} |}.

(** The results of the run [id-0] after a benchmark of [m1] with the suite
    [helloSuite] in which every request succeeds. *)
Definition readBack (useJson : bool) : list StoredResult :=
  Storage.getBenchmarkResults
    (store (runBenchmark (calm steady) ["m1"%string] "default" helloSuite
                         (threeTimes true) false false (initially useJson)).2)
    "id-0".

(** The run of [m1] over [helloSuite] in which the last write of the store,
    the update of the run to [completed], fails. *)
Definition lateFailure : World :=
  (runBenchmark (failing 20 steady) ["m1"%string] "default" helloSuite
                (threeTimes true) false false (initially false)).2.

(** The same run without any fault. *)
Definition success : World :=
  (runBenchmark (calm steady) ["m1"%string] "default" helloSuite
                (threeTimes true) false false (initially false)).2.

(** * Properties *)

(** ** Percentiles *)

Section Percentiles.

Local Open Scope Q_scope.

Lemma Qceiling_hundredths (z : Z) : Qceiling (z # 100) = ((z + 99) / 100)%Z.
Proof.
  unfold Qceiling, Qfloor. simpl.
  assert (H := Z.div_mod (- z) 100 ltac:(lia)).
  assert (H' := Z.div_mod (z + 99) 100 ltac:(lia)).
  assert (B := Z.mod_pos_bound (- z) 100 ltac:(lia)).
  assert (B' := Z.mod_pos_bound (z + 99) 100 ltac:(lia)).
  lia.
Qed.

Lemma percentileIndex_exact (n : nat) (K : Z) :
  percentileIndex n (inject_Z K) = ((K * Z.of_nat n + 99) / 100 - 1)%Z.
Proof.
  unfold percentileIndex.
  rewrite <- Qceiling_hundredths. f_equal.
  apply Qceiling_comp.
  unfold Qeq, Qdiv, Qmult, Qinv, inject_Z. simpl. lia.
Qed.

Lemma calculatePercentile_index (L : list Q) (K : Z) :
  L ≠ [] → calculatePercentile L (inject_Z K) = L !! specIndex (length L) K.
Proof.
  intros HL. unfold calculatePercentile, specIndex.
  destruct L as [|x L]; [done|]. cbn [length Nat.eqb].
  by rewrite percentileIndex_exact.
Qed.

Lemma specIndex_in_range (n : nat) (K : Z) :
  (0 < n)%nat → (K <= 100)%Z → (specIndex n K < n)%nat.
Proof.
  intros Hn HK. unfold specIndex.
  assert ((K * Z.of_nat n + 99) / 100 < Z.of_nat n + 1)%Z.
  { apply Z.div_lt_upper_bound; nia. }
  lia.
Qed.

Lemma specIndex_mono (n : nat) (K K' : Z) :
  (K <= K')%Z → (specIndex n K <= specIndex n K')%nat.
Proof.
  intros HK. unfold specIndex.
  assert ((K * Z.of_nat n + 99) / 100 <= (K' * Z.of_nat n + 99) / 100)%Z.
  { apply Z.div_le_mono; nia. }
  lia.
Qed.

#[local] Instance Qle_total : Total Qle.
Proof. intros x y. destruct (Qlt_le_dec x y); [left; by apply Qlt_le_weak | by right]. Qed.

#[local] Instance Qle_trans' : Transitive Qle.
Proof. intros x y z. apply Qle_trans. Qed.

Lemma sortQ_sorted (l : list Q) : StronglySorted Qle (sortQ l).
Proof. apply Sorted_StronglySorted; [apply _|]. apply Sorted_merge_sort, _. Qed.

Lemma sortQ_length (l : list Q) : length (sortQ l) = length l.
Proof. unfold sortQ. by rewrite merge_sort_Permutation. Qed.

(** In a sorted array a later index holds a larger element. *)
Lemma sorted_lookup_le (l : list Q) (i j : nat) (x y : Q) :
  StronglySorted Qle l → (i <= j)%nat → l !! i = Some x → l !! j = Some y → x <= y.
Proof.
  intros Hs. revert i j.
  induction Hs as [|a l Hs IH Ha]; intros i j Hij Hi Hj; [done|].
  destruct i as [|i], j as [|j]; simpl in *; try lia.
  - simplify_eq. apply Qle_refl.
  - simplify_eq. rewrite Forall_forall in Ha. apply Ha.
    by eapply list_elem_of_lookup_2.
  - eapply IH; [|done..]. lia.
Qed.

End Percentiles.

(** C5: for K in {50, 95, 99}, [latency_pK] is the percentile K of the sorted
    latencies of the successful iterations; the percentile of an empty array
    is 0 and the percentile of a non-empty array [L] is its element at index
    [max(0, ceil(K/100 × |L|) − 1)], which lies inside the array; with 100
    elements the index is at most 99, and with one element every percentile
    is that element. *)
Theorem C5_percentile_formula (L : list Q) (K : Z) :
  K ∈ [50; 95; 99] →
  (∀ config results,
     latency_p K (aggregate config results)
     = calculatePercentile (sortQ (latencies results)) (inject_Z K)) ∧
  (L = [] → calculatePercentile L (inject_Z K) = Some 0%Q) ∧
  (L ≠ [] →
     (specIndex (length L) K < length L)%nat ∧
     ∃ x, L !! specIndex (length L) K = Some x ∧
          calculatePercentile L (inject_Z K) = Some x) ∧
  (length L = 100%nat → (specIndex (length L) K <= 99)%nat) ∧
  (∀ x, L = [x] → calculatePercentile L (inject_Z K) = Some x).
Proof.
  intros HK.
  assert (K <= 100)%Z as HK100.
  { set_unfold in HK. lia. }
  split; [|repeat split].
  - intros config results. set_unfold in HK.
    destruct HK as [->|[->|[->|[]]]]; reflexivity.
  - by intros ->.
  - apply specIndex_in_range; [|done]. destruct L; [done | simpl; lia].
  - destruct (lookup_lt_is_Some_2 L (specIndex (length L) K)) as [x Hx].
    { apply specIndex_in_range; [|done]. destruct L; [done | simpl; lia]. }
    exists x. split; [done|]. by rewrite calculatePercentile_index.
  - intros Hlen. pose proof (specIndex_in_range (length L) K). lia.
  - intros x ->. rewrite calculatePercentile_index by done.
    pose proof (specIndex_in_range 1 K ltac:(lia) HK100) as Hi.
    simpl length. by destruct (specIndex 1 K) as [|?]; [|lia].
Qed.

Lemma C5_percentile_formula_witness :
  (95 ∈ [50; 95; 99]) ∧
  calculatePercentile [120%Q; 130%Q; 250%Q] (inject_Z 95) = Some 250%Q.
Proof.
  assert (95 ∈ [50; 95; 99]) as HK by (set_unfold; lia).
  split; [exact HK|].
  destruct (C5_percentile_formula [120%Q; 130%Q; 250%Q] 95 HK) as (_ & _ & Hne & _ & _).
  destruct (Hne ltac:(done)) as (_ & x & Hx & ->).
  vm_compute in Hx. symmetry. exact Hx.
Defined.

(** ** What a computation adds to the trace *)

(** [emits m P]: from every world, [m] extends the trace by some events [l],
    the registry changes by the writes among them, and [P] holds of the
    outcome and [l]. *)
Definition emits {A} (m : M A) (P : Outcome A → list Event → Prop) : Prop :=
  ∀ w, ∃ l, trace (m w).2 = trace w ++ l ∧
            runningBenchmarks (m w).2 = replay l (runningBenchmarks w) ∧
            P (m w).1 l.

(** [only ok m]: every event that [m] adds satisfies [ok], whatever the
    outcome. *)
Definition only {A} (ok : Event → Prop) (m : M A) : Prop :=
  emits m (fun _ l => Forall ok l).

Lemma replay_app l1 l2 registry : replay (l1 ++ l2) registry = replay l2 (replay l1 registry).
Proof. unfold replay. by rewrite foldl_app. Qed.

Section Emits.

Context {A B : Type}.

Lemma emits_weaken (m : M A) (P P' : Outcome A → list Event → Prop) :
  emits m P → (∀ o l, P o l → P' o l) → emits m P'.
Proof. intros Hm HP w. destruct (Hm w) as (l & ? & ? & ?). eauto. Qed.

Lemma emits_nothing (m : M A) (P : Outcome A → list Event → Prop) :
  (∀ w, trace (m w).2 = trace w ∧ runningBenchmarks (m w).2 = runningBenchmarks w) →
  (∀ o, P o []) → emits m P.
Proof.
  intros Hm HP w. destruct (Hm w) as [Ht Hr]. exists [].
  rewrite app_nil_r. eauto.
Qed.

Lemma emits_ret (a : A) (P : Outcome A → list Event → Prop) :
  P (Returned a) [] → emits (ret a) P.
Proof. intros HP w. exists []. simpl. rewrite app_nil_r. eauto. Qed.

Lemma emits_throw (e : string) (P : Outcome A → list Event → Prop) :
  P (Thrown e) [] → emits (throw e) P.
Proof. intros HP w. exists []. simpl. rewrite app_nil_r. eauto. Qed.

Lemma emits_get (f : World → A) (P : Outcome A → list Event → Prop) :
  (∀ a, P (Returned a) []) → emits (get f) P.
Proof. intros HP w. exists []. simpl. rewrite app_nil_r. eauto. Qed.

Lemma emits_bind (m : M A) (f : A → M B) P1 P2 (P : Outcome B → list Event → Prop) :
  emits m P1 →
  (∀ a, emits (f a) (P2 a)) →
  (∀ e l, P1 (Thrown e) l → P (Thrown e) l) →
  (∀ a l1 o l2, P1 (Returned a) l1 → P2 a o l2 → P o (l1 ++ l2)) →
  emits (bind m f) P.
Proof.
  intros Hm Hf Hthrow Hret w. unfold bind.
  destruct (Hm w) as (l1 & Ht1 & Hr1 & HP1).
  destruct (m w) as [[a|e] w1]; simpl in *.
  - destruct (Hf a w1) as (l2 & Ht2 & Hr2 & HP2). exists (l1 ++ l2).
    rewrite Ht2, Ht1, Hr2, Hr1, app_assoc, replay_app. eauto.
  - exists l1. eauto.
Qed.

Lemma emits_try_catch (m : M A) (h : string → M A) P1 P2
    (P : Outcome A → list Event → Prop) :
  emits m P1 →
  (∀ e, emits (h e) (P2 e)) →
  (∀ a l, P1 (Returned a) l → P (Returned a) l) →
  (∀ e l1 o l2, P1 (Thrown e) l1 → P2 e o l2 → P o (l1 ++ l2)) →
  emits (try_catch m h) P.
Proof.
  intros Hm Hh Hret Hthrow w. unfold try_catch.
  destruct (Hm w) as (l1 & Ht1 & Hr1 & HP1).
  destruct (m w) as [[a|e] w1]; simpl in *.
  - exists l1. eauto.
  - destruct (Hh e w1) as (l2 & Ht2 & Hr2 & HP2). exists (l1 ++ l2).
    rewrite Ht2, Ht1, Hr2, Hr1, app_assoc, replay_app. eauto.
Qed.

Lemma emits_try_finally (m : M A) (final : M unit) P1 P2
    (P : Outcome A → list Event → Prop) :
  emits m P1 →
  emits final P2 →
  (∀ o l1 u l2, P1 o l1 → P2 (Returned u) l2 → P o (l1 ++ l2)) →
  (∀ o l1 e l2, P1 o l1 → P2 (Thrown e) l2 → P (Thrown e) (l1 ++ l2)) →
  emits (try_finally m final) P.
Proof.
  intros Hm Hf Hret Hthrow w. unfold try_finally.
  destruct (Hm w) as (l1 & Ht1 & Hr1 & HP1).
  destruct (m w) as [o w1]; simpl in *.
  destruct (Hf w1) as (l2 & Ht2 & Hr2 & HP2).
  destruct (final w1) as [[u|e] w2]; simpl in *;
    exists (l1 ++ l2); rewrite Ht2, Ht1, Hr2, Hr1, app_assoc, replay_app; eauto.
Qed.

End Emits.

(** An event that is not a write of the registry. *)
Definition noWrite (e : Event) : Prop :=
  match e with Published _ _ => False | _ => True end.

Section Only.

Context {A B : Type} (ok : Event → Prop).

Lemma only_ret (a : A) : only ok (ret a).
Proof. by apply emits_ret. Qed.

Lemma only_throw (e : string) : only ok (throw (A := A) e).
Proof. by apply emits_throw. Qed.

Lemma only_get (f : World → A) : only ok (get f).
Proof. by apply emits_get. Qed.

Lemma only_bind (m : M A) (f : A → M B) :
  only ok m → (∀ a, only ok (f a)) → only ok (bind m f).
Proof.
  intros Hm Hf.
  apply (emits_bind m f (fun _ l => Forall ok l) (fun _ _ l => Forall ok l));
    [exact Hm | exact Hf | done |].
  intros. by apply Forall_app.
Qed.

Lemma only_try_catch (m : M A) (h : string → M A) :
  only ok m → (∀ e, only ok (h e)) → only ok (try_catch m h).
Proof.
  intros Hm Hh.
  apply (emits_try_catch m h (fun _ l => Forall ok l) (fun _ _ l => Forall ok l));
    [exact Hm | exact Hh | done |].
  intros. by apply Forall_app.
Qed.

Lemma only_try_finally (m : M A) (final : M unit) :
  only ok m → only ok final → only ok (try_finally m final).
Proof.
  intros Hm Hf.
  apply (emits_try_finally m final (fun _ l => Forall ok l) (fun _ l => Forall ok l));
    [exact Hm | exact Hf | |];
    intros; by apply Forall_app.
Qed.

Lemma only_foldM (f : B → A → M B) (l : list A) (b : B) :
  (∀ b a, only ok (f b a)) → only ok (foldM f l b).
Proof.
  intros Hf. revert b.
  induction l as [|a l IH]; intros b; simpl.
  - by apply emits_ret.
  - apply (emits_bind (f b a) _ (fun _ l => Forall ok l) (fun _ _ l => Forall ok l));
      [apply Hf | apply IH | done |].
    intros. by apply Forall_app.
Qed.

Lemma only_emit (e : Event) : noWrite e → ok e → only ok (emit e).
Proof.
  intros Hw He w. exists [e]. split; [done|]. split; [by destruct e|]. by constructor.
Qed.

End Only.

Section OnlyEngine.

Variable env : Env.
Variable ok : Event → Prop.

Lemma only_ask {A} (f : Env → nat → A) : only ok (ask env f).
Proof. by apply emits_nothing. Qed.

Lemma only_io : only ok (io env).
Proof.
  unfold io. apply only_bind; [apply only_ask|].
  intros [e|]; [apply only_throw | apply only_ret].
Qed.

Lemma only_query {A} (f : Storage.t → A) : only ok (query env f).
Proof. unfold query. apply only_bind; [apply only_io | intros _; apply only_get]. Qed.

Lemma only_update (f : Storage.t → Z → Storage.t) : only ok (update env f).
Proof.
  unfold update. apply only_bind; [apply only_io | intros _].
  apply only_bind; [apply only_ask | intros now].
  by apply emits_nothing.
Qed.

Lemma only_getLoadedModelInfo (modelId : string) : only ok (getLoadedModelInfo modelId).
Proof. apply only_get. Qed.

Lemma only_loadModel (modelId name : string) : only ok (loadModel env modelId name).
Proof.
  unfold loadModel. apply only_bind; [apply only_io | intros _].
  apply only_bind; [apply only_ask | intros [info|e]]; [|apply only_throw].
  by apply emits_nothing.
Qed.

Lemma only_checkModelHealth (name : string) : only ok (checkModelHealth env name).
Proof.
  unfold checkModelHealth. apply only_bind; [apply only_io | intros _; apply only_ask].
Qed.

Lemma only_notify (progressCallback : bool) (event : ProgressEvent) :
  ok (Notified event) → only ok (notify env progressCallback event).
Proof.
  intros Hok. unfold notify. destruct progressCallback; [|apply only_ret].
  apply only_bind; [by apply only_emit | intros _; apply only_io].
Qed.

Lemma only_publish (runId : string) (entry : Entry.t) :
  ok (Published runId entry) → only ok (publish runId entry).
Proof.
  intros Hok w. exists [Published runId entry]. split; [done|]. split; [done|].
  by constructor.
Qed.

Lemma only_runSingleInference modelInfo scenario config :
  (∀ outside, ok (Sent (singleInference modelInfo scenario config outside).1)) →
  only ok (runSingleInference env modelInfo scenario config).
Proof.
  intros Hok. unfold runSingleInference.
  apply only_bind; [apply only_ask | intros outside].
  specialize (Hok outside).
  destruct (singleInference modelInfo scenario config outside) as [request metrics].
  apply only_bind; [by apply only_emit | intros _; apply only_ret].
Qed.

Lemma only_iteration modelId modelInfo scenario config progressCallback results i :
  (∀ s k n, ok (Notified (Iteration modelId s k n))) →
  (∀ outside, ok (Sent (singleInference modelInfo scenario config outside).1)) →
  only ok (iteration env modelId modelInfo scenario config progressCallback results i).
Proof.
  intros Hn Hs. unfold iteration, collectResourceMetrics.
  apply only_bind; [by apply only_notify | intros _].
  apply only_bind; [apply only_ask | intros resourcesBefore].
  apply only_bind; [by apply only_runSingleInference | intros metrics].
  apply only_bind; [apply only_ask | intros resourcesAfter].
  apply only_ret.
Qed.

End OnlyEngine.

(** ** The model identifier of an inference *)

Lemma singleInference_model modelInfo scenario config outside :
  model (singleInference modelInfo scenario config outside).1 = LoadedModelInfo.id modelInfo.
Proof. unfold singleInference. by destruct (Config.streaming config). Qed.

Lemma singleInference_stream modelInfo scenario config outside :
  stream (singleInference modelInfo scenario config outside).1 = Config.streaming config.
Proof. unfold singleInference. by destruct (Config.streaming config). Qed.

(** The requests of a scenario all carry the identifier of the given
    [modelInfo]. *)
Lemma scenario_requests env modelId modelInfo scenario config progressCallback results :
  only (fun e => ∀ request, e = Sent request →
                   model request = LoadedModelInfo.id modelInfo ∧
                   stream request = Config.streaming config)
       (foldM (iteration env modelId modelInfo scenario config progressCallback)
              (seqZ 0 (Config.iterations config)) results).
Proof.
  apply only_foldM. intros b i. apply only_iteration.
  - intros s k n request [=].
  - intros outside request [= <-].
    split; [apply singleInference_model | apply singleInference_stream].
Qed.

(** C2: whatever the store holds for the descriptor, every request that
    [runScenario] sends to the chat-completion client, streaming or not,
    carries as [model] the [id] of the [LoadedModelInfo] that the
    orchestrator has cached for the model; without a cached entry no request
    is sent. *)
Theorem C2_model_is_loaded_id env modelId scenario config progressCallback w :
  ∃ l, trace (runScenario env modelId scenario config progressCallback w).2 = trace w ++ l ∧
       ∀ request, Sent request ∈ l →
         stream request = Config.streaming config ∧
         ∃ modelInfo, loaded w !! modelId = Some modelInfo ∧
                      model request = LoadedModelInfo.id modelInfo.
Proof.
  unfold runScenario, query, io, ask, getLoadedModelInfo, get, bind at 1 2 3 4. simpl.
  destruct (fault env (tick w)) as [e|]; simpl.
  { exists []. rewrite app_nil_r. split; [done|]. intros ? ?%elem_of_nil. done. }
  destruct (Storage.getModel (store w) modelId) as [descriptor|]; simpl.
  2: { exists []. rewrite app_nil_r. split; [done|]. intros ? ?%elem_of_nil. done. }
  destruct (loaded w !! modelId) as [modelInfo|] eqn:Hloaded; simpl.
  2: { exists []. rewrite app_nil_r. split; [done|]. intros ? ?%elem_of_nil. done. }
  match goal with |- context [trace (?m ?w1).2] =>
    assert (only (fun e => ∀ request, e = Sent request →
                    model request = LoadedModelInfo.id modelInfo ∧
                    stream request = Config.streaming config) m) as Hm
  end.
  { apply only_bind; [apply scenario_requests | intros results; apply only_ret]. }
  match goal with |- context [trace (?m ?w1).2] =>
    destruct (Hm w1) as (l & Htrace & _ & Hok)
  end.
  exists l. split; [exact Htrace|].
  intros request Hin. rewrite Forall_forall in Hok.
  destruct (Hok _ Hin request eq_refl) as [Hmodel Hstream]. eauto.
Qed.

(** ** The accumulators of a scenario *)

(** The accumulators say what the list of iterations says. *)
Record consistent (results : Results) : Prop := {
  latencies_ok : latencies results = latencyOf <$> List.filter succeeded (iterations results);
  tokenCounts_ok :
    tokenCounts results = Metrics.tokens <$> List.filter succeeded (iterations results);
  errors_ok :
    errors results = countIf (fun m => truthyError (Metrics.error m)) (iterations results);
  timeouts_ok : timeouts results = countIf Metrics.timeout (iterations results);
  snapshots_ok : length (resourceSnapshots results) = length (iterations results)
}.

Lemma noResults_consistent : consistent noResults.
Proof. by split. Qed.

Lemma record_consistent results metrics resourcesBefore resourcesAfter :
  consistent results → consistent (record results metrics resourcesBefore resourcesAfter).
Proof.
  intros [Hl Ht He Hto Hs].
  split; unfold record, countIf, succeeded in *; simpl;
    rewrite ?List.filter_app, ?fmap_app, ?length_app; simpl.
  - destruct (truthyError _), (Metrics.timeout metrics); simpl;
      by rewrite ?app_nil_r, Hl.
  - destruct (truthyError _), (Metrics.timeout metrics); simpl;
      by rewrite ?app_nil_r, Ht.
  - destruct (truthyError _); simpl; rewrite He; lia.
  - destruct (Metrics.timeout metrics); simpl; rewrite Hto; lia.
  - rewrite Hs. done.
Qed.

Lemma record_length results metrics resourcesBefore resourcesAfter :
  length (iterations (record results metrics resourcesBefore resourcesAfter))
  = S (length (iterations results)).
Proof. unfold record. simpl. rewrite length_app. simpl. lia. Qed.

(** A loop keeps what each of its steps keeps. *)
Lemma foldM_invariant {A B} (I : B → Prop) (f : B → A → M B) (l : list A) :
  (∀ b a w b' w', I b → f b a w = (Returned b', w') → I b') →
  ∀ b w b' w', I b → foldM f l b w = (Returned b', w') → I b'.
Proof.
  intros Hf. induction l as [|a l IH]; intros b w b' w' Hb Hrun; simpl in Hrun.
  - unfold ret in Hrun. by simplify_eq.
  - unfold bind in Hrun. destruct (f b a w) as [[b1|e] w1] eqn:Hstep; [|done].
    eapply IH; [|exact Hrun]. eapply Hf; [exact Hb | exact Hstep].
Qed.

Lemma iteration_returns env modelId modelInfo scenario config progressCallback
    results i w results' w' :
  iteration env modelId modelInfo scenario config progressCallback results i w
  = (Returned results', w') →
  ∃ metrics resourcesBefore resourcesAfter,
    results' = record results metrics resourcesBefore resourcesAfter.
Proof.
  unfold iteration, collectResourceMetrics, runSingleInference, notify, io, ask, emit.
  intros Hrun. unfold bind in Hrun. simpl in Hrun.
  destruct progressCallback; simpl in Hrun.
  - destruct (fault env (tick w)); simpl in Hrun; [done|].
    destruct (singleInference _ _ _ _) as [request metrics]; simpl in Hrun.
    unfold ret in Hrun. simplify_eq. eauto.
  - destruct (singleInference _ _ _ _) as [request metrics]; simpl in Hrun.
    unfold ret in Hrun. simplify_eq. eauto.
Qed.

(** What [runScenario] returns is the aggregate of consistent results with
    one entry per iteration. *)
Lemma runScenario_returns env modelId scenario config progressCallback w aggregated raw w' :
  runScenario env modelId scenario config progressCallback w
  = (Returned (aggregated, raw), w') →
  aggregated = aggregate config raw ∧ consistent raw.
Proof.
  unfold runScenario, query, io, ask, getLoadedModelInfo, get, bind at 1 2 3 4. simpl.
  destruct (fault env (tick w)) as [e|]; simpl; [done|].
  destruct (Storage.getModel (store w) modelId) as [descriptor|]; simpl; [|done].
  destruct (loaded w !! modelId) as [modelInfo|]; simpl; [|done].
  unfold bind.
  match goal with |- context [foldM ?f ?l ?b ?w1] =>
    destruct (foldM f l b w1) as [[results|e] w2] eqn:Hloop
  end; [|done].
  intros [= <- <- <-]. split; [done|].
  eapply foldM_invariant; [|apply noResults_consistent | exact Hloop].
  intros b a w3 b' w4 Hb Hstep.
  apply iteration_returns in Hstep as (metrics & rb & ra & ->).
  by apply record_consistent.
Qed.

(** ** Percentiles of a scenario *)

Lemma percentiles_ordered (l : list Q) :
  ∃ p50 p95 p99,
    calculatePercentile (sortQ l) 50 = Some p50 ∧
    calculatePercentile (sortQ l) 95 = Some p95 ∧
    calculatePercentile (sortQ l) 99 = Some p99 ∧
    (p50 <= p95)%Q ∧ (p95 <= p99)%Q.
Proof.
  destruct (decide (sortQ l = [])) as [Hnil|Hne].
  { rewrite Hnil. exists 0%Q, 0%Q, 0%Q. by repeat split. }
  assert (0 < length (sortQ l))%nat as Hlen.
  { destruct (sortQ l); [done | simpl; lia]. }
  change 50%Q with (inject_Z 50). change 95%Q with (inject_Z 95).
  change 99%Q with (inject_Z 99).
  rewrite !calculatePercentile_index by done.
  destruct (lookup_lt_is_Some_2 (sortQ l) (specIndex (length (sortQ l)) 50))
    as [p50 H50]; [apply specIndex_in_range; [done | lia]|].
  destruct (lookup_lt_is_Some_2 (sortQ l) (specIndex (length (sortQ l)) 95))
    as [p95 H95]; [apply specIndex_in_range; [done | lia]|].
  destruct (lookup_lt_is_Some_2 (sortQ l) (specIndex (length (sortQ l)) 99))
    as [p99 H99]; [apply specIndex_in_range; [done | lia]|].
  exists p50, p95, p99. repeat split; try done.
  - eapply sorted_lookup_le; [apply sortQ_sorted | | exact H50 | exact H95].
    apply specIndex_mono. lia.
  - eapply sorted_lookup_le; [apply sortQ_sorted | | exact H95 | exact H99].
    apply specIndex_mono. lia.
Qed.

(** C6: whenever [runScenario] returns a result, its three latency
    percentiles are defined and [latency_p50 ≤ latency_p95 ≤ latency_p99]. *)
Theorem C6_percentiles_monotone env modelId scenario config progressCallback w
    aggregated raw w' :
  runScenario env modelId scenario config progressCallback w
  = (Returned (aggregated, raw), w') →
  ∃ p50 p95 p99,
    latency_p50 aggregated = Some p50 ∧
    latency_p95 aggregated = Some p95 ∧
    latency_p99 aggregated = Some p99 ∧
    (p50 <= p95)%Q ∧ (p95 <= p99)%Q.
Proof.
  intros [-> _]%runScenario_returns. unfold aggregate. simpl.
  apply percentiles_ordered.
Qed.

(** ** Tokens per second *)

Lemma aggregate_tps config results :
  let seconds := (sumQ (latencies results) / 1000)%Q in
  ((0 < seconds)%Q →
   (tps (aggregate config results)
    == inject_Z (sumZ (tokenCounts results)) / seconds)%Q) ∧
  ((seconds == 0)%Q → (tps (aggregate config results) == 0)%Q).
Proof.
  unfold aggregate. simpl.
  destruct (Qlt_le_dec 0 (sumQ (latencies results) / 1000)) as [Hpos|Hle].
  - split; [reflexivity|]. intros Hz. rewrite Hz in Hpos. by apply Qlt_irrefl in Hpos.
  - split; [|reflexivity]. intros Hpos. exfalso. by eapply Qlt_not_le.
Qed.

Lemma sumQ_from (l : list Q) (a : Q) : (foldl Qplus a l == a + sumQ l)%Q.
Proof.
  unfold sumQ. revert a. induction l as [|x l IH]; intros a; simpl.
  - ring.
  - rewrite IH, (IH (0 + x)%Q). ring.
Qed.

Lemma sumQ_nonneg (l : list Q) : Forall (fun x => 0 <= x)%Q l → (0 <= sumQ l)%Q.
Proof.
  induction 1 as [|x l Hx Hl IH]; [done|].
  unfold sumQ. simpl. rewrite sumQ_from. lra.
Qed.

(** C7: the [tps] of a returned result is the number of tokens of the
    successful iterations (no error, no timeout) divided by the sum of their
    latencies in seconds, and 0 when that sum is 0; with a monotonic clock
    the sum is never negative, so one of the two cases applies. *)
Theorem C7_tps env modelId scenario config progressCallback w aggregated raw w' :
  runScenario env modelId scenario config progressCallback w
  = (Returned (aggregated, raw), w') →
  let successful := List.filter succeeded (iterations raw) in
  let tokensSum := inject_Z (sumZ (Metrics.tokens <$> successful)) in
  let seconds := (sumQ (latencyOf <$> successful) / 1000)%Q in
  ((0 < seconds)%Q → (tps aggregated == tokensSum / seconds)%Q) ∧
  ((seconds == 0)%Q → (tps aggregated == 0)%Q) ∧
  (Forall (fun m => Metrics.startTime m <= Metrics.endTime m)%Q (iterations raw) →
   (0 <= seconds)%Q).
Proof.
  intros [-> Hc]%runScenario_returns. simpl.
  destruct (aggregate_tps config raw) as [Hpos Hzero].
  rewrite (latencies_ok _ Hc), (tokenCounts_ok _ Hc) in Hpos.
  rewrite (latencies_ok _ Hc) in Hzero.
  split; [exact Hpos|]. split; [exact Hzero|].
  intros Hclock.
  assert (0 <= sumQ (latencyOf <$> List.filter succeeded (iterations raw)))%Q.
  { apply sumQ_nonneg. rewrite Forall_fmap. 
    apply Forall_forall. intros m Hm. rewrite Forall_forall in Hclock.
    apply list_elem_of_In, List.filter_In in Hm as [Hm _].
    apply list_elem_of_In in Hm. specialize (Hclock m Hm).
    unfold latencyOf. simpl. lra. }
  apply Qle_shift_div_l; [reflexivity | lra].
Qed.

(** ** A concrete scenario *)

Lemma C6_percentiles_monotone_witness :
  match runScenario (calm steady) "m1" hello (threeTimes true) true (initially false) with
  | (Returned (aggregated, _), _) =>
      ∃ p50 p95 p99,
        latency_p50 aggregated = Some p50 ∧
        latency_p95 aggregated = Some p95 ∧
        latency_p99 aggregated = Some p99 ∧
        (p50 <= p95)%Q ∧ (p95 <= p99)%Q
  | (Thrown _, _) => False
  end.
Proof.
  destruct (runScenario (calm steady) "m1" hello (threeTimes true) true (initially false))
    as [[[aggregated raw]|e] w'] eqn:Hrun.
  - exact (C6_percentiles_monotone _ _ _ _ _ _ _ _ _ Hrun).
  - vm_compute in Hrun. discriminate Hrun.
Defined.

Lemma C7_tps_witness :
  match runScenario (calm steady) "m1" hello (threeTimes false) true (initially false) with
  | (Returned (aggregated, raw), _) =>
      (sumQ (latencyOf <$> List.filter succeeded (iterations raw)) / 1000 == 39 # 100)%Q ∧
      (tps aggregated
       == inject_Z (sumZ (Metrics.tokens <$> List.filter succeeded (iterations raw)))
          / (sumQ (latencyOf <$> List.filter succeeded (iterations raw)) / 1000))%Q
  | (Thrown _, _) => False
  end.
Proof.
  destruct (runScenario (calm steady) "m1" hello (threeTimes false) true (initially false))
    as [[[aggregated raw]|e] w'] eqn:Hrun.
  - destruct (C7_tps _ _ _ _ _ _ _ _ _ Hrun) as (Hpos & _ & _).
    assert (sumQ (latencyOf <$> List.filter succeeded (iterations raw)) / 1000 == 39 # 100)%Q
      as Hseconds.
    { vm_compute in Hrun. injection Hrun as <- <- <-. reflexivity. }
    split; [exact Hseconds|]. apply Hpos. rewrite Hseconds. reflexivity.
  - vm_compute in Hrun. discriminate Hrun.
Defined.

(** ** Resource averages *)

Lemma or_null_div (f : Resources → option Q) (rs : list Snapshot) (count : Q) :
  nullWhenZero (JS.or_null (JS.div (sumAfter f rs) count))
               (JS.div (sumAfter f rs) count) (sampled f rs).
Proof.
  repeat split.
  - intros Hnone. unfold sumAfter. rewrite Hnone. simpl.
    unfold JS.div. destruct (Qeq_bool count 0) eqn:Hc; [done|].
    unfold JS.or_null, JS.truthy.
    assert (Qeq_bool (0 / count) 0 = true) as ->; [|done].
    apply Qeq_bool_iff. unfold Qdiv. ring.
  - intros q -> Hq. unfold JS.or_null, JS.truthy.
    apply Qeq_bool_iff in Hq. by rewrite Hq.
  - intros q -> Hq. unfold JS.or_null, JS.truthy.
    destruct (Qeq_bool q 0) eqn:Hz; [|done].
    apply Qeq_bool_iff in Hz. done.
Qed.

(** C10: each of [cpu_avg], [ram_avg] and [gpu_avg] of an aggregate is
    [null] when there is no non-null sample and also when the mean that the
    engine computes is exactly 0, and is that mean otherwise; a machine
    sampled at 0% CPU gets [cpu_avg = null]. *)
Theorem C10_zero_average_is_null (config : Config.t) (results : Results) :
  let rs := resourceSnapshots results in
  nullWhenZero (cpu_avg (aggregate config results))
               (JS.div (sumAfter cpu rs) (ofNat (length rs))) (sampled cpu rs) ∧
  nullWhenZero (ram_avg (aggregate config results))
               (JS.div (sumAfter ram rs) (ofNat (length rs))) (sampled ram rs) ∧
  nullWhenZero (gpu_avg (aggregate config results))
               (JS.div (sumAfter gpu rs) (ofNat (length (sampled gpu rs))))
               (sampled gpu rs) ∧
  sampled cpu [idle; idle] = [idle; idle] ∧
  JS.div (sumAfter cpu [idle; idle]) (ofNat 2) = JS.Fin (0 / 2)%Q ∧
  avgCpu [idle; idle] = None.
Proof.
  intros rs.
  split; [apply or_null_div|]. split; [apply or_null_div|]. split; [apply or_null_div|].
  by vm_compute.
Qed.

(** ** A scenario whose every iteration runs out of time *)

Lemma filter_none {A} (p : A → bool) (l : list A) :
  Forall (fun x => p x = false) l → List.filter p l = [].
Proof. induction 1 as [|x l Hx _ IH]; [done|]. simpl. by rewrite Hx. Qed.

Lemma filter_all {A} (p : A → bool) (l : list A) :
  Forall (fun x => p x = true) l → List.filter p l = l.
Proof. induction 1 as [|x l Hx _ IH]; [done|]. simpl. by rewrite Hx, IH. Qed.

(** When no timed-out iteration records an error, the aggregate is the one
    of the specification. *)
Lemma timeouts_without_error config results :
  consistent results →
  Config.iterations config = Z.of_nat (length (iterations results)) →
  0 < Config.iterations config →
  Forall (fun m => Metrics.timeout m = true ∧ truthyError (Metrics.error m) = false)
         (iterations results) →
  JS.is_fin (timeout_rate (aggregate config results)) 100 ∧
  JS.is_fin (error_rate (aggregate config results)) 0 ∧
  successful_iterations (aggregate config results) = 0 ∧
  latency_p50 (aggregate config results) = Some 0%Q ∧
  latency_p95 (aggregate config results) = Some 0%Q ∧
  latency_p99 (aggregate config results) = Some 0%Q ∧
  tps (aggregate config results) = 0%Q.
Proof.
  intros [Hl Ht He Hto Hs] Hn Hpos Hall.
  assert (List.filter succeeded (iterations results) = []) as Hnone.
  { apply filter_none. eapply Forall_impl; [exact Hall|].
    intros m [Hm _]. unfold succeeded. by rewrite Hm, andb_false_r. }
  assert (List.filter (fun m => truthyError (Metrics.error m)) (iterations results) = [])
    as Herr.
  { apply filter_none. eapply Forall_impl; [exact Hall|]. by intros m [_ Hm]. }
  assert (List.filter Metrics.timeout (iterations results) = iterations results) as Hout.
  { apply filter_all. eapply Forall_impl; [exact Hall|]. by intros m [Hm _]. }
  unfold countIf in *. rewrite Hnone in Hl. rewrite Herr in He. rewrite Hout in Hto.
  simpl in *.
  unfold aggregate. simpl. rewrite Hl, He, Hto, Hn. simpl.
  repeat split; try done.
  - unfold JS.div.
    destruct (Qeq_bool (inject_Z (Z.of_nat (length (iterations results)))) 0) eqn:Hz.
    { apply Qeq_bool_iff in Hz. unfold Qeq in Hz. simpl in Hz. lia. }
    simpl. apply Qeq_bool_neq in Hz. field. exact Hz.
  - unfold JS.div.
    destruct (Qeq_bool (inject_Z (Z.of_nat (length (iterations results)))) 0) eqn:Hz.
    { apply Qeq_bool_iff in Hz. unfold Qeq in Hz. simpl in Hz. lia. }
    simpl. apply Qeq_bool_neq in Hz. field. exact Hz.
  - lia.
Qed.

(** An iteration that the timer aborts has both [timeout] and [error] set;
    it is counted once as an error and once as a timeout. *)
Lemma timeouts_with_error config results :
  consistent results →
  Config.iterations config = Z.of_nat (length (iterations results)) →
  Forall (fun m => Metrics.timeout m = true ∧ truthyError (Metrics.error m) = true)
         (iterations results) →
  errors results = Config.iterations config ∧
  timeouts results = Config.iterations config ∧
  successful_iterations (aggregate config results) = - Config.iterations config.
Proof.
  intros [Hl Ht He Hto Hs] Hn Hall.
  assert (List.filter (fun m => truthyError (Metrics.error m)) (iterations results)
          = iterations results) as Herr.
  { apply filter_all. eapply Forall_impl; [exact Hall|]. by intros m [_ Hm]. }
  assert (List.filter Metrics.timeout (iterations results) = iterations results) as Hout.
  { apply filter_all. eapply Forall_impl; [exact Hall|]. by intros m [Hm _]. }
  unfold countIf in *. rewrite Herr in He. rewrite Hout in Hto.
  unfold aggregate. simpl. lia.
Qed.

(** C1: with a backend that never answers, the timer aborts each of the
    three requests; the aborted call rejects, so every iteration carries
    both [timeout] and [error].  The aggregate has [timeout_rate = 100],
    zero percentiles and [tps = 0], but [error_rate = 100] and
    [successful_iterations = -3]. *)
Theorem C1_aborted_iterations_counted_twice :
  match runScenario (calm (hanging 1)) "m1" hello (Config.mk 3 (Some 1) None false) false
                    (initially false) with
  | (Returned (aggregated, raw), _) =>
      Forall (fun m => Metrics.timeout m = true) (iterations raw) ∧
      List.filter succeeded (iterations raw) = [] ∧
      JS.is_fin (timeout_rate aggregated) 100 ∧
      latency_p50 aggregated = Some 0%Q ∧
      latency_p95 aggregated = Some 0%Q ∧
      latency_p99 aggregated = Some 0%Q ∧
      tps aggregated = 0%Q ∧
      JS.is_fin (error_rate aggregated) 100 ∧
      successful_iterations aggregated = -3
  | (Thrown _, _) => False
  end.
Proof. vm_compute. repeat split; repeat constructor. Qed.

(** ** Rates read back from the store *)

(** The SQLite store keeps a rate exactly when it is truthy. *)
Lemma toRow_rates result now :
  ResultRow.error_rate (Storage.toRow result now)
  = JS.or_null (error_rate (ResultRecord.aggregated result)) ∧
  ResultRow.timeout_rate (Storage.toRow result now)
  = JS.or_null (timeout_rate (ResultRecord.aggregated result)).
Proof. done. Qed.

(** The JSON store hands back the rates it was given. *)
Lemma json_store_keeps_rates st result now r :
  Storage.useJson st = true →
  r ∈ Storage.getBenchmarkResults (Storage.saveBenchmarkResult st result now)
        (ResultRecord.run_id result) →
  (∀ r', r' ∈ Storage.getBenchmarkResults st (ResultRecord.run_id result) →
         is_Some (Storage.read_error_rate r') ∧ is_Some (Storage.read_timeout_rate r')) →
  is_Some (Storage.read_error_rate r) ∧ is_Some (Storage.read_timeout_rate r).
Proof.
  intros Hjson Hin Hold.
  unfold Storage.getBenchmarkResults, Storage.saveBenchmarkResult in *.
  rewrite Hjson in *. simpl in *.
  rewrite lookup_insert_eq in Hin. simpl in Hin.
  apply elem_of_app in Hin as [Hin|Hin]; [by apply Hold|].
  apply list_elem_of_singleton in Hin as ->. simpl. eauto.
Qed.

(** C8: a run in which every iteration succeeds has [error_rate = 0] and
    [timeout_rate = 0]; the SQLite store binds [result.error_rate || null]
    and [result.timeout_rate || null], so both are read back as [null],
    while the JSON store hands back the zeros. *)
Theorem C8_zero_rates_read_back_as_null :
  (∃ row, readBack false = [Row row] ∧
          ResultRow.tps row ≠ None ∧
          Storage.read_error_rate (Row row) = None ∧
          Storage.read_timeout_rate (Row row) = None) ∧
  (∃ result created_at,
      readBack true = [Kept result created_at] ∧
      Storage.read_error_rate (Kept result created_at) = Some (JS.Fin (0 / 3 * 100)%Q) ∧
      Storage.read_timeout_rate (Kept result created_at) = Some (JS.Fin (0 / 3 * 100)%Q)).
Proof.
  split.
  - eexists. vm_compute. split; [reflexivity|]. by repeat split.
  - eexists _, _. vm_compute. split; [reflexivity|]. by split.
Qed.

(** ** Exports *)

(** An export route answers 200 or 500, whatever the run id. *)
Lemma export_routes_status env show id w :
  (∃ response, (exportJsonRoute env id w).1 = Returned response ∧
               (statusCode response = 200 ∨ statusCode response = 500)) ∧
  (∃ response, (exportCsvRoute env show id w).1 = Returned response ∧
               (statusCode response = 200 ∨ statusCode response = 500)).
Proof.
  unfold exportJsonRoute, exportCsvRoute, orInternalError, try_catch, query, io, ask, get,
    bind, ret, throw.
  simpl. destruct (fault env (tick w)); simpl; split; eexists; (split; [done|]); simpl; lia.
Qed.

(** Without a fault the export of an unknown run succeeds with an empty
    content. *)
Lemma export_of_unknown_run env show id w :
  fault env (tick w) = None →
  Storage.getBenchmarkRun (store w) id = None →
  Storage.getBenchmarkResults (store w) id = [] →
  (exportJsonRoute env id w).1
  = Returned {| statusCode := 200;
                body := ExportBody {| Storage.export_run := None;
                                      Storage.export_results := [];
                                      Storage.exported_at := date env (S (tick w)) |} |} ∧
  (exportCsvRoute env show id w).1
  = Returned {| statusCode := 200; body := CsvBody EmptyString |}.
Proof.
  intros Hfault Hrun Hresults.
  unfold exportJsonRoute, exportCsvRoute, orInternalError, try_catch, query, io, ask, get,
    bind, ret, throw, Storage.exportToJSON, Storage.exportToCSV.
  simpl. rewrite Hfault. simpl. by rewrite Hrun, Hresults.
Qed.

(** C9: no run [missing] exists in the store.  The route that reads the run
    answers 404 [Run not found]; the JSON export answers 200 with
    [run = null] and no results, and the CSV export answers 200 with an empty
    text.  No export route ever answers 404. *)
Theorem C9_export_of_missing_run_succeeds :
  Storage.getBenchmarkRun (store (initially false)) "missing" = None ∧
  (getRunRoute (calm steady) "missing" (initially false)).1
  = Returned {| statusCode := 404; body := ErrorBody "Run not found" |} ∧
  (exportJsonRoute (calm steady) "missing" (initially false)).1
  = Returned {| statusCode := 200;
                body := ExportBody {| Storage.export_run := None;
                                      Storage.export_results := [];
                                      Storage.exported_at := 1 |} |} ∧
  (∀ show,
     (exportCsvRoute (calm steady) show "missing" (initially false)).1
     = Returned {| statusCode := 200; body := CsvBody EmptyString |}) ∧
  (∀ env show id w response,
     (exportJsonRoute env id w).1 = Returned response ∨
     (exportCsvRoute env show id w).1 = Returned response →
     statusCode response ≠ 404).
Proof.
  split; [done|]. split; [by vm_compute|]. split; [by vm_compute|].
  split; [intros show; by vm_compute|].
  intros env show id w response Hret.
  destruct (export_routes_status env show id w) as [(r1 & H1 & Hs1) (r2 & H2 & Hs2)].
  destruct Hret as [Hret|Hret]; [rewrite H1 in Hret | rewrite H2 in Hret];
    injection Hret as <-; lia.
Qed.

(** ** The registry during a run *)

(** An event that is neither a write of the registry nor a progress
    notification. *)
Definition silent (e : Event) : Prop :=
  match e with
  | Published _ _ | Notified (Progress _ _) => False
  | _ => True
  end.

(** The task counts [c + 1, ..., c + k]. *)
Fixpoint counts (c : Z) (k : nat) : list Z :=
  match k with
  | O => []
  | S k => (c + 1) :: counts (c + 1) k
  end.

(** The entries and the notifications of [updateProgress] for the tasks
    [c + 1, ..., c + k]. *)
Definition entryAt (runId : string) (totalTasks completedTasks : Z) : Entry.t :=
  Entry.mk runId running (progressOf totalTasks completedTasks) None.

Definition trail (runId : string) (totalTasks c : Z) (k : nat) : list Entry.t :=
  entryAt runId totalTasks <$> counts c k.

Definition notices (progressCallback : bool) (totalTasks c : Z) (k : nat) : list Z :=
  if progressCallback then progressOf totalTasks <$> counts c k else [].

Lemma published_app l1 l2 : published (l1 ++ l2) = published l1 ++ published l2.
Proof. apply omap_app. Qed.

Lemma notified_app l1 l2 : notified (l1 ++ l2) = notified l1 ++ notified l2.
Proof. apply omap_app. Qed.

Lemma silent_nothing l : Forall silent l → published l = [] ∧ notified l = [].
Proof.
  induction 1 as [|e l He _ [IHp IHn]]; [done|].
  change (e :: l) with ([e] ++ l).
  rewrite published_app, notified_app, IHp, IHn.
  by destruct e as [? ?|[]|?].
Qed.

Lemma counts_app c k1 k2 : counts c (k1 + k2) = counts c k1 ++ counts (c + Z.of_nat k1) k2.
Proof.
  revert c. induction k1 as [|k1 IH]; intros c; simpl.
  - by rewrite Z.add_0_r.
  - rewrite IH. do 3 f_equal. lia.
Qed.

Lemma elem_of_counts c k x : x ∈ counts c k ↔ c < x <= c + Z.of_nat k.
Proof.
  revert c. induction k as [|k IH]; intros c; simpl.
  - rewrite elem_of_nil. lia.
  - rewrite elem_of_cons, IH. lia.
Qed.

Lemma counts_sorted c k : StronglySorted Z.le (counts c k).
Proof.
  revert c. induction k as [|k IH]; intros c; simpl; constructor; [apply IH|].
  apply Forall_forall. intros x Hx%elem_of_counts. lia.
Qed.

Lemma trail_app runId total c k1 k2 :
  trail runId total c (k1 + k2)
  = trail runId total c k1 ++ trail runId total (c + Z.of_nat k1) k2.
Proof. unfold trail. by rewrite counts_app, fmap_app. Qed.

Lemma notices_app cb total c k1 k2 :
  notices cb total c (k1 + k2) = notices cb total c k1 ++ notices cb total (c + Z.of_nat k1) k2.
Proof. unfold notices. destruct cb; [|done]. by rewrite counts_app, fmap_app. Qed.

Section Run.

Variable env : Env.

Lemma quiet_runScenario modelId scenario config progressCallback :
  only silent (runScenario env modelId scenario config progressCallback).
Proof.
  unfold runScenario.
  apply only_bind; [apply only_query | intros [model|]]; [|apply only_throw].
  apply only_bind; [apply only_getLoadedModelInfo | intros [modelInfo|]]; [|apply only_throw].
  apply only_bind; [|intros results; apply only_ret].
  apply only_foldM. intros results i. by apply only_iteration.
Qed.

Lemma quiet_ensureModelReady runId modelId model :
  only silent (ensureModelReady env runId modelId model).
Proof.
  unfold ensureModelReady.
  apply only_bind; [apply only_getLoadedModelInfo | intros cached].
  apply only_bind.
  - destruct cached as [modelInfo|]; [apply only_ret|].
    apply only_try_catch.
    + apply only_bind; [apply only_loadModel | intros modelInfo; apply only_ret].
    + intros message. apply only_bind; [apply only_update | intros _; apply only_ret].
  - intros [modelInfo|]; [|apply only_ret].
    apply only_bind; [apply only_checkModelHealth | intros health].
    apply only_bind.
    + destruct (healthy health); [apply only_ret|].
      apply only_try_catch; [|intros _; apply only_ret].
      apply only_bind; [apply only_loadModel | intros _; apply only_checkModelHealth].
    + intros health'. destruct (healthy health'); [apply only_ret|].
      apply only_bind; [apply only_update | intros _; apply only_ret].
Qed.

(** [updateProgress] writes one entry and, with a callback, gives it one
    value, also when the callback throws. *)
Lemma updateProgress_emits runId progressCallback totalTasks completedTasks :
  emits (updateProgress env runId progressCallback totalTasks completedTasks)
        (fun _ l =>
           published l = trail runId totalTasks (completedTasks - 1) 1 ∧
           notified l = notices progressCallback totalTasks (completedTasks - 1) 1).
Proof.
  intros w. unfold updateProgress, publish, notify, emit, io, ask, bind, ret, throw, trail,
    notices, entryAt.
  simpl. replace (completedTasks - 1 + 1) with completedTasks by lia.
  destruct progressCallback; simpl.
  - exists [Published runId (Entry.mk runId running (progressOf totalTasks completedTasks) None);
            Notified (Progress runId (progressOf totalTasks completedTasks))].
    destruct (fault env (tick w)); simpl; by rewrite <- app_assoc.
  - by exists [Published runId (Entry.mk runId running (progressOf totalTasks completedTasks) None)].
Qed.

(** What a stretch of the run adds: the entries and notifications of [k]
    further tasks, at most [n]; a normal exit returns the new count. *)
Definition advances (runId : string) (progressCallback : bool) (totalTasks c : Z) (n : nat)
    (o : Outcome (Z * list ResultRecord.t)) (l : list Event) : Prop :=
  ∃ k : nat,
    (k <= n)%nat ∧
    published l = trail runId totalTasks c k ∧
    notified l = notices progressCallback totalTasks c k ∧
    ∀ c' allResults, o = Returned (c', allResults) → c' = c + Z.of_nat k.

Lemma advances_seq runId cb total c n1 n2 k1 o l1 l2 :
  (k1 <= n1)%nat →
  published l1 = trail runId total c k1 →
  notified l1 = notices cb total c k1 →
  advances runId cb total (c + Z.of_nat k1) n2 o l2 →
  advances runId cb total c (n1 + n2) o (l1 ++ l2).
Proof.
  intros Hk1 Hp1 Hn1 (k2 & Hk2 & Hp2 & Hn2 & Hret).
  exists (k1 + k2)%nat. split; [lia|].
  rewrite published_app, notified_app, trail_app, notices_app, Hp1, Hn1, Hp2, Hn2.
  repeat split. intros c' allResults Ho. rewrite (Hret _ _ Ho). lia.
Qed.

Lemma scenarioTask_advances runId modelId config progressCallback totalTasks c allResults
    scenario :
  emits (scenarioTask env runId modelId config progressCallback totalTasks
                      (c, allResults) scenario)
        (fun o l =>
           published l = trail runId totalTasks c 1 ∧
           notified l = notices progressCallback totalTasks c 1 ∧
           ∀ c' allResults', o = Returned (c', allResults') → c' = c + 1).
Proof.
  unfold scenarioTask.
  eapply (emits_bind _ _
            (fun _ l => published l = trail runId totalTasks c 1 ∧
                        notified l = notices progressCallback totalTasks c 1)
            (fun _ o l => l = [] ∧ ∀ c' allResults', o = Returned (c', allResults') → c' = c + 1)).
  - eapply (emits_try_finally _ _ (fun _ l => Forall silent l)).
    + apply only_try_catch.
      * apply only_bind; [apply quiet_runScenario | intros result].
        apply only_bind; [apply only_ask | intros id].
        apply only_bind; [apply only_update | intros _; apply only_ret].
      * intros message. apply only_bind; [apply only_update | intros _; apply only_ret].
    + pose proof (updateProgress_emits runId progressCallback totalTasks (c + 1)) as Hu.
      replace (c + 1 - 1) with c in Hu by lia. exact Hu.
    + intros o l1 u l2 [Hp Hn]%silent_nothing [Hp2 Hn2].
      by rewrite published_app, notified_app, Hp, Hn, Hp2, Hn2.
    + intros o l1 e l2 [Hp Hn]%silent_nothing [Hp2 Hn2].
      by rewrite published_app, notified_app, Hp, Hn, Hp2, Hn2.
  - intros allResults'. apply emits_ret. split; [done|]. by intros c' ? [= <- _].
  - intros e l [Hp Hn]. by repeat split.
  - intros a l1 o l2 [Hp Hn] [-> Hret]. rewrite app_nil_r. by repeat split.
Qed.

Lemma advances_weaken runId cb total c n n' o l :
  (n <= n')%nat → advances runId cb total c n o l → advances runId cb total c n' o l.
Proof. intros Hn (k & Hk & H). exists k. split; [lia | exact H]. Qed.

Lemma advances_then runId cb total c n1 n2 c' allResults o l1 l2 :
  advances runId cb total c n1 (Returned (c', allResults)) l1 →
  advances runId cb total c' n2 o l2 →
  advances runId cb total c (n1 + n2) o (l1 ++ l2).
Proof.
  intros (k1 & Hk1 & Hp1 & Hn1 & Hret) Hadv.
  rewrite (Hret _ _ eq_refl) in Hadv. by eapply advances_seq.
Qed.

Lemma advances_thrown runId cb total c n (state : Z * list ResultRecord.t) e l :
  advances runId cb total c n (Returned state) l → advances runId cb total c n (Thrown e) l.
Proof. intros (k & Hk & Hp & Hn & _). exists k. by repeat split. Qed.

Lemma silent_advances runId cb total c n allResults l :
  Forall silent l → advances runId cb total c n (Returned (c, allResults)) l.
Proof.
  intros [Hp Hn]%silent_nothing. exists 0%nat.
  split; [lia|]. split; [done|]. split; [by destruct cb|].
  intros c' ? [= <- _]. lia.
Qed.

Lemma silent_then_advances runId cb total c n o l1 l2 :
  Forall silent l1 → advances runId cb total c n o l2 →
  advances runId cb total c n o (l1 ++ l2).
Proof.
  intros Hs Hadv.
  eapply (advances_then _ _ _ _ 0 n); [by apply silent_advances with (allResults := []) | done].
Qed.

Lemma scenarios_advance runId modelId config progressCallback totalTasks scenarios :
  ∀ c allResults,
    emits (foldM (scenarioTask env runId modelId config progressCallback totalTasks)
                 scenarios (c, allResults))
          (advances runId progressCallback totalTasks c (length scenarios)).
Proof.
  induction scenarios as [|scenario scenarios IH]; intros c allResults; simpl.
  - apply emits_ret. by apply silent_advances.
  - eapply (emits_bind _ _ _
              (fun state => advances runId progressCallback totalTasks
                                     (fst state) (length scenarios))).
    + apply scenarioTask_advances.
    + intros [c' allResults']. apply IH.
    + intros e l (Hp & Hn & _). exists 1%nat. split; [lia|]. by repeat split.
    + intros [c' allResults'] l1 o l2 (Hp & Hn & Hret) Hadv. simpl in Hadv.
      rewrite (Hret _ _ eq_refl) in Hadv.
      change (S (length scenarios)) with (1 + length scenarios)%nat.
      by eapply (advances_seq _ _ _ _ 1).
Qed.

(** The tasks of one model: as many as the suite has scenarios. *)
Definition perModel (suite : Suite) : nat := length (default [] (scenarios suite)).

Lemma modelTask_advances runId suite config progressCallback totalTasks c allResults modelId :
  emits (modelTask env runId suite config progressCallback totalTasks (c, allResults) modelId)
        (advances runId progressCallback totalTasks c (perModel suite)).
Proof.
  unfold modelTask, perModel.
  eapply (emits_bind _ _ (fun _ l => Forall silent l)
            (fun _ => advances runId progressCallback totalTasks c
                               (length (default [] (scenarios suite))))).
  - apply only_query.
  - intros [model|].
    + eapply (emits_bind _ _ (fun _ l => Forall silent l)
                (fun _ => advances runId progressCallback totalTasks c
                               (length (default [] (scenarios suite))))).
      * apply quiet_ensureModelReady.
      * intros [modelInfo|]; [|apply emits_ret; by apply silent_advances].
        destruct (scenarios suite) as [scenarios|]; simpl.
        -- apply scenarios_advance.
        -- apply emits_throw. eapply advances_thrown. by apply silent_advances with (allResults := []).
      * intros e l Hs. eapply advances_thrown. by apply silent_advances with (allResults := []).
      * intros a l1 o l2 Hs Hadv. by apply silent_then_advances.
    + eapply (emits_bind _ _ (fun _ l => Forall silent l)
                (fun _ => advances runId progressCallback totalTasks c
                               (length (default [] (scenarios suite))))).
      * apply only_update.
      * intros _. apply emits_ret. by apply silent_advances.
      * intros e l Hs. eapply advances_thrown. by apply silent_advances with (allResults := []).
      * intros a l1 o l2 Hs Hadv. by apply silent_then_advances.
  - intros e l Hs. eapply advances_thrown. by apply silent_advances with (allResults := []).
  - intros a l1 o l2 Hs Hadv. by apply silent_then_advances.
Qed.

Lemma models_advance runId suite config progressCallback totalTasks modelIds :
  ∀ c allResults,
    emits (foldM (modelTask env runId suite config progressCallback totalTasks)
                 modelIds (c, allResults))
          (advances runId progressCallback totalTasks c (length modelIds * perModel suite)).
Proof.
  induction modelIds as [|modelId modelIds IH]; intros c allResults; simpl.
  - apply emits_ret. by apply silent_advances.
  - eapply (emits_bind _ _ _
              (fun state => advances runId progressCallback totalTasks (fst state)
                                     (length modelIds * perModel suite))).
    + apply modelTask_advances.
    + intros [c' allResults']. apply IH.
    + intros e l Hadv. eapply advances_weaken; [|exact Hadv]. lia.
    + intros [c' allResults'] l1 o l2 Hadv1 Hadv2. simpl in Hadv2.
      by eapply advances_then.
Qed.

Lemma ask_emits {A} (f : Env → nat → A) :
  emits (ask env f) (fun o l => l = [] ∧ ∃ a, o = Returned a).
Proof. intros w. exists []. simpl. rewrite app_nil_r. eauto. Qed.

Lemma publish_emits runId entry :
  emits (publish runId entry)
        (fun o l => (∃ u, o = Returned u) ∧ l = [Published runId entry]).
Proof. intros w. exists [Published runId entry]. simpl. eauto. Qed.

(** The three ways in which the registry entry of a run can end. *)
Definition completedEntry (runId : string) : Entry.t := Entry.mk runId completed 100 None.
Definition failedEntry (runId message : string) : Entry.t :=
  Entry.mk runId failed 0 (Some message).

Definition ending (runId : string) (tail : list Entry.t) : Prop :=
  tail = [] ∨ tail = [completedEntry runId] ∨ ∃ message, tail = [failedEntry runId message].

(** The body of the [try] of [runTask]: the progress of some tasks, then
    the completed entry unless something threw. *)
Definition committed {A} (runId : string) (cb : bool) (total : Z) (n : nat)
    (o : Outcome A) (l : list Event) : Prop :=
  ∃ k : nat,
    (k <= n)%nat ∧
    notified l = notices cb total 0 k ∧
    published l = trail runId total 0 k
                  ++ match o with Returned _ => [completedEntry runId] | Thrown _ => [] end.

Lemma silent_then_committed {A} runId cb total n (o : Outcome A) l1 l2 :
  Forall silent l1 → committed runId cb total n o l2 → committed runId cb total n o (l1 ++ l2).
Proof.
  intros [Hp Hn]%silent_nothing (k & Hk & Hn2 & Hp2). exists k.
  by rewrite published_app, notified_app, Hp, Hn.
Qed.

Lemma silent_committed {A} runId cb total n e l :
  Forall silent l → committed (A := A) runId cb total n (Thrown e) l.
Proof.
  intros [Hp Hn]%silent_nothing. exists 0%nat. rewrite Hp, Hn.
  split; [lia|]. split; [by destruct cb | done].
Qed.

Lemma runTask_body_emits runId modelIds suiteName suite config progressCallback :
  emits
    (let* started_at := ask env date in
     update env (fun st _ =>
       Storage.saveBenchmarkRun st
         (Run.mk runId suiteName modelIds config running started_at None)) ;;;
     let totalTasks := totalTasksOf modelIds suite in
     let* state :=
       foldM (modelTask env runId suite config progressCallback totalTasks)
             modelIds (0, []) in
     update env (fun st completedAt =>
                   Storage.updateBenchmarkRun st runId completed completedAt) ;;;
     publish runId (Entry.mk runId completed 100 None) ;;;
     ret (runId, snd state))
    (committed runId progressCallback (totalTasksOf modelIds suite)
               (length modelIds * perModel suite)).
Proof.
  set (total := totalTasksOf modelIds suite).
  set (n := (length modelIds * perModel suite)%nat).
  eapply (emits_bind _ _ (fun _ l => Forall silent l)
            (fun _ => committed runId progressCallback total n));
    [apply only_ask | | intros; by apply silent_committed
     | intros; by apply silent_then_committed].
  intros started_at.
  eapply (emits_bind _ _ (fun _ l => Forall silent l)
            (fun _ => committed runId progressCallback total n));
    [apply only_update | | intros; by apply silent_committed
     | intros; by apply silent_then_committed].
  intros _.
  eapply (emits_bind _ _ (advances runId progressCallback total 0 n)
            (fun _ o l => notified l = [] ∧
                          published l = match o with
                                        | Returned _ => [completedEntry runId]
                                        | Thrown _ => []
                                        end)).
  - apply models_advance.
  - intros state.
    eapply (emits_bind _ _ (fun _ l => Forall silent l)
              (fun _ o l => (∃ u, o = Returned u) ∧
                            l = [Published runId (completedEntry runId)])).
    + apply only_update.
    + intros _.
      eapply (emits_bind _ _ _ (fun _ o l => (∃ u, o = Returned u) ∧ l = []));
        [apply publish_emits | intros _; apply emits_ret; eauto | |].
      * by intros e l [[u [=]] _].
      * intros u l1 o l2 [_ ->] [[r ->] ->]. eauto.
    + intros e l [Hp Hn]%silent_nothing. by split.
    + intros _ l1 o l2 [Hp Hn]%silent_nothing [[u ->] ->].
      by rewrite published_app, notified_app, Hp, Hn.
  - intros e l (k & Hk & Hp & Hn & _). exists k. by rewrite app_nil_r.
  - intros [c' allResults] l1 o l2 (k & Hk & Hp & Hn & _) [Hn2 Hp2]. exists k.
    rewrite published_app, notified_app, Hp, Hn, Hn2, Hp2, app_nil_r.
    split; [lia|]. split; [done|]. by destruct o.
Qed.

Lemma runTask_handler_emits runId message :
  emits (A := string * list ResultRecord.t)
    (update env (fun st now => Storage.updateBenchmarkRun st runId failed now) ;;;
     publish runId (Entry.mk runId failed 0 (Some message)) ;;;
     throw message)
    (fun o l => notified l = [] ∧
                (published l = [] ∨ published l = [failedEntry runId message])).
Proof.
  eapply (emits_bind _ _ (fun _ l => Forall silent l)
            (fun _ _ l => l = [Published runId (failedEntry runId message)])).
  - apply only_update.
  - intros _.
    eapply (emits_bind _ _ _ (fun _ _ l => l = []));
      [apply publish_emits | intros _; by apply emits_throw | |].
    + by intros e l [[u [=]] _].
    + by intros u l1 o l2 [_ ->] ->.
  - intros e l [Hp Hn]%silent_nothing. eauto.
  - intros _ l1 o l2 [Hp Hn]%silent_nothing ->.
    rewrite published_app, notified_app, Hp, Hn. eauto.
Qed.

(** The events of a whole run, after its first entry. *)
Definition finished_run (runId : string) (cb : bool) (total : Z) (n : nat)
    (l : list Event) : Prop :=
  ∃ (k : nat) (tail : list Entry.t),
    (k <= n)%nat ∧
    notified l = notices cb total 0 k ∧
    published l = trail runId total 0 k ++ tail ∧
    ending runId tail.

Lemma runTask_emits runId modelIds suiteName suite config progressCallback :
  emits (runTask env runId modelIds suiteName suite config progressCallback)
        (fun _ => finished_run runId progressCallback (totalTasksOf modelIds suite)
                               (length modelIds * perModel suite)).
Proof.
  unfold runTask.
  eapply (emits_try_catch _ _ _
            (fun message _ l =>
               notified l = [] ∧
               (published l = [] ∨ published l = [failedEntry runId message]))).
  - apply runTask_body_emits.
  - intros message. apply runTask_handler_emits.
  - intros a l (k & Hk & Hn & Hp). exists k, [completedEntry runId].
    unfold ending. eauto 10.
  - intros e l1 o l2 (k & Hk & Hn & Hp) [Hn2 Hp2].
    rewrite app_nil_r in Hp.
    destruct Hp2 as [Hp2|Hp2].
    + exists k, []. rewrite published_app, notified_app, Hp, Hn, Hn2, Hp2, !app_nil_r.
      unfold ending. eauto 10.
    + exists k, [failedEntry runId e].
      rewrite published_app, notified_app, Hp, Hn, Hn2, Hp2, !app_nil_r.
      unfold ending. eauto 10.
Qed.

(** The events of [runBenchmark]: the first entry, the progress of some
    tasks, and an ending. *)
Lemma runBenchmark_emits modelIds suiteName suite config progressCallback returnImmediately :
  emits (runBenchmark env modelIds suiteName suite config progressCallback returnImmediately)
        (fun _ l =>
           ∃ runId l',
             published l = Entry.mk runId running 0 None :: published l' ∧
             notified l = notified l' ∧
             finished_run runId progressCallback (totalTasksOf modelIds suite)
                          (length modelIds * perModel suite) l').
Proof.
  unfold runBenchmark.
  eapply (emits_bind _ _ (fun o l => l = [] ∧ ∃ a, o = Returned a)
            (fun runId _ l =>
               ∃ l', published l = Entry.mk runId running 0 None :: published l' ∧
                     notified l = notified l' ∧
                     finished_run runId progressCallback (totalTasksOf modelIds suite)
                                  (length modelIds * perModel suite) l')).
  - apply ask_emits.
  - intros runId.
    eapply (emits_bind _ _ _
              (fun _ _ => finished_run runId progressCallback (totalTasksOf modelIds suite)
                                       (length modelIds * perModel suite))).
    + apply publish_emits.
    + intros _. destruct returnImmediately; [|apply runTask_emits].
      eapply (emits_try_catch _ _
                (fun _ => finished_run runId progressCallback (totalTasksOf modelIds suite)
                                       (length modelIds * perModel suite))
                (fun _ _ l => l = [])).
      * eapply (emits_bind _ _ _ (fun _ _ l => l = []));
          [apply runTask_emits | intros; by apply emits_ret | done |].
        intros a l1 o l2 Hf ->. by rewrite app_nil_r.
      * intros e. by apply emits_ret.
      * done.
      * intros e l1 o l2 Hf ->. by rewrite app_nil_r.
    + by intros e l [[u [=]] _].
    + intros u l1 o l2 [_ ->] Hf. exists l2. eauto.
  - by intros e l [_ [a [=]]].
  - intros runId l1 o l2 [-> _] (l' & Hp' & Hn' & Hf).
    exists runId, l'. eauto.
Qed.

End Run.

(** ** The progress values of a run *)

Lemma progressOf_exact (p : positive) (k : Z) :
  progressOf (Z.pos p) k = (200 * k + Z.pos p) / (2 * Z.pos p).
Proof.
  unfold progressOf, JS.round. change (0 <? Z.pos p) with true. cbv iota.
  rewrite (Qfloor_comp _ ((200 * k + Z.pos p) # (2 * p))).
  - unfold Qfloor. by rewrite Pos2Z.inj_mul.
  - unfold Qeq, Qdiv, Qmult, Qinv, Qplus, inject_Z. simpl.
    rewrite ?Pos2Z.inj_mul. ring.
Qed.

Lemma progressOf_mono (total k k' : Z) :
  k <= k' → progressOf total k <= progressOf total k'.
Proof.
  intros Hk. destruct total as [|p|p]; [done| |done].
  rewrite !progressOf_exact. apply Z.div_le_mono; lia.
Qed.

Lemma progressOf_bounds (total k : Z) :
  0 <= k <= total → 0 <= progressOf total k <= 100.
Proof.
  intros Hk. destruct total as [|p|p]; [done| |done].
  rewrite progressOf_exact. split.
  - apply Z.div_pos; lia.
  - assert ((200 * k + Z.pos p) / (2 * Z.pos p) < 101); [|lia].
    apply Z.div_lt_upper_bound; lia.
Qed.

Lemma trail_progress runId total c k :
  Entry.progress <$> trail runId total c k = progressOf total <$> counts c k.
Proof. unfold trail. rewrite <- list_fmap_compose. done. Qed.

Lemma counts_progress_sorted total c k :
  StronglySorted Z.le (progressOf total <$> counts c k).
Proof.
  apply (StronglySorted_fmap _ Z.le Z.le); [|apply counts_sorted].
  intros x y. apply progressOf_mono.
Qed.

(** From 0 through the progress of the tasks to 100, the values never
    decrease. *)
Lemma history_sorted (n k : nat) :
  (k <= n)%nat →
  StronglySorted Z.le (0 :: (progressOf (Z.of_nat n) <$> counts 0 k) ++ [100]).
Proof.
  intros Hk.
  assert (∀ x, x ∈ progressOf (Z.of_nat n) <$> counts 0 k → 0 <= x <= 100) as Hin.
  { intros x (c & -> & Hc%elem_of_counts)%list_elem_of_fmap.
    apply progressOf_bounds. lia. }
  constructor.
  - apply StronglySorted_app. split; [|split].
    + intros x y Hx ->%list_elem_of_singleton. by apply Hin.
    + apply counts_progress_sorted.
    + repeat constructor.
  - apply Forall_app. split; [|by repeat constructor].
    apply Forall_forall. intros x Hx. by apply Hin.
Qed.

Lemma totalTasksOf_perModel modelIds suite :
  totalTasksOf modelIds suite = Z.of_nat (length modelIds * perModel suite).
Proof. unfold totalTasksOf, perModel. lia. Qed.

(** The history of a run in the registry and at the callback: the first
    entry with progress 0, the progress of [k] tasks, and an ending. *)
Lemma run_history env modelIds suiteName suite config progressCallback returnImmediately w :
  let w' := (runBenchmark env modelIds suiteName suite config progressCallback
                          returnImmediately w).2 in
  let n := (length modelIds * perModel suite)%nat in
  ∃ l runId (k : nat) tail,
    trace w' = trace w ++ l ∧
    runningBenchmarks w' = replay l (runningBenchmarks w) ∧
    (k <= n)%nat ∧
    notified l = notices progressCallback (Z.of_nat n) 0 k ∧
    published l = Entry.mk runId running 0 None :: trail runId (Z.of_nat n) 0 k ++ tail ∧
    ending runId tail.
Proof.
  intros w' n.
  destruct (runBenchmark_emits env modelIds suiteName suite config progressCallback
                               returnImmediately w)
    as (l & Htrace & Hregistry & runId & l' & Hp & Hn & k & tail & Hk & Hn' & Hp' & Hend).
  rewrite totalTasksOf_perModel in Hn', Hp'.
  exists l, runId, k, tail. rewrite Hp, Hn, Hp', Hn'. done.
Qed.

(** C3 (amended): the progress values given to the callback never decrease,
    in any execution; the entries written to the registry are a sequence
    without [failed] entry whose progress values never decrease, followed,
    when the run fails, by one last entry with status [failed] and
    progress 0. *)
Theorem C3_progress_monotone_until_failure env modelIds suiteName suite config
    progressCallback returnImmediately w :
  ∃ l before last,
    trace (runBenchmark env modelIds suiteName suite config progressCallback
                        returnImmediately w).2 = trace w ++ l ∧
    Sorted Z.le (notified l) ∧
    published l = before ++ last ∧
    Forall (fun e => Entry.status e ≠ failed) before ∧
    Sorted Z.le (Entry.progress <$> before) ∧
    (last = [] ∨ ∃ runId message, last = [Entry.mk runId failed 0 (Some message)]).
Proof.
  destruct (run_history env modelIds suiteName suite config progressCallback
                        returnImmediately w)
    as (l & runId & k & tail & Htrace & _ & Hk & Hn & Hp & Hend).
  pose proof (history_sorted _ _ Hk) as Hsorted.
  assert (Forall (fun e => Entry.status e ≠ failed)
                 (trail runId (Z.of_nat (length modelIds * perModel suite)) 0 k)) as Hrunning.
  { apply Forall_forall. intros e (c & -> & _)%list_elem_of_fmap. done. }
  assert (Sorted Z.le (notified l)) as Hnotified.
  { rewrite Hn. unfold notices. destruct progressCallback; [|constructor].
    apply StronglySorted_Sorted, counts_progress_sorted. }
  assert (Sorted Z.le (0 :: (progressOf (Z.of_nat (length modelIds * perModel suite))
                              <$> counts 0 k))) as Hprefix.
  { apply StronglySorted_Sorted.
    rewrite app_comm_cons in Hsorted. by apply StronglySorted_app_1_l in Hsorted. }
  destruct Hend as [->|[->|[message ->]]].
  - exists l, (published l), []. rewrite app_nil_r.
    split; [exact Htrace|]. split; [exact Hnotified|]. split; [done|].
    rewrite Hp, app_nil_r. split; [by constructor|]. split; [|by left].
    by rewrite fmap_cons, trail_progress.
  - exists l, (published l), []. rewrite app_nil_r.
    split; [exact Htrace|]. split; [exact Hnotified|]. split; [done|].
    rewrite Hp. split; [|split; [|by left]].
    + constructor; [done|]. apply Forall_app. split; [done|]. by repeat constructor.
    + rewrite fmap_cons, fmap_app, trail_progress.
      by apply StronglySorted_Sorted.
  - exists l, (Entry.mk runId running 0 None
               :: trail runId (Z.of_nat (length modelIds * perModel suite)) 0 k),
           [failedEntry runId message].
    split; [exact Htrace|]. split; [exact Hnotified|]. split; [by rewrite Hp|].
    split; [by constructor|]. split; [|right; by exists runId, message].
    by rewrite fmap_cons, trail_progress.
Qed.

(** For a well-formed entry in a terminal status, progress is 100 exactly
    when the status is [completed]. *)
Lemma wellFormed_terminal e :
  wellFormed e → Entry.status e ≠ running →
  (Entry.progress e = 100 ↔ Entry.status e = completed).
Proof.
  intros (Hc & Hf & _) Hr. destruct (Entry.status e) eqn:Hs; [done| |].
  - split; [done|]. intros _. by apply Hc.
  - split; [|done]. intros H100. rewrite Hf in H100; [lia|done].
Qed.

Lemma replay_ok l registry :
  registryOk registry → Forall wellFormed (published l) → registryOk (replay l registry).
Proof.
  revert registry. induction l as [|e l IH]; intros registry Hok Hall; [done|].
  change (e :: l) with ([e] ++ l) in *.
  rewrite published_app in Hall. apply Forall_app in Hall as [He Hl].
  rewrite replay_app. apply IH; [|done].
  destruct e as [runId entry| |]; [|done..]. simpl.
  intros runId' e'. destruct (decide (runId = runId')) as [->|Hne].
  - rewrite lookup_insert_eq. intros [= <-]. by apply Forall_inv in He.
  - rewrite lookup_insert_ne by done. apply Hok.
Qed.

(** The entries that a run writes are well formed. *)
Lemma run_entries_wellFormed env modelIds suiteName suite config progressCallback
    returnImmediately w :
  let w' := (runBenchmark env modelIds suiteName suite config progressCallback
                          returnImmediately w).2 in
  ∃ l,
    trace w' = trace w ++ l ∧
    runningBenchmarks w' = replay l (runningBenchmarks w) ∧
    Forall wellFormed (published l).
Proof.
  intros w'.
  destruct (run_history env modelIds suiteName suite config progressCallback
                        returnImmediately w)
    as (l & runId & k & tail & Htrace & Hregistry & Hk & Hn & Hp & Hend).
  exists l. split; [exact Htrace|]. split; [exact Hregistry|].
  apply Forall_forall. intros e He. rewrite Hp in He.
  apply elem_of_cons in He as [->|He]; [unfold wellFormed; simpl; repeat split; done || lia|].
  apply elem_of_app in He as [He|He].
  - apply list_elem_of_fmap in He as (c & -> & Hc%elem_of_counts).
    pose proof (progressOf_bounds (Z.of_nat (length modelIds * perModel suite)) c
                  ltac:(lia)).
    unfold wellFormed. simpl. repeat split; done || lia.
  - destruct Hend as [->|[->|[message ->]]].
    + by apply elem_of_nil in He.
    + apply list_elem_of_singleton in He as ->.
      unfold wellFormed. simpl. repeat split; done || lia.
    + apply list_elem_of_singleton in He as ->.
      unfold wellFormed. simpl. repeat split; done || lia.
Qed.

(** C4 (amended): a run keeps the registry well formed in every state it
    goes through: an entry with status [completed] has progress 100, an
    entry with status [failed] has progress 0 and an entry with status
    [running] has a progress between 0 and 100; so for entries in a terminal
    status, progress is 100 exactly for the completed ones. *)
Theorem C4_progress_of_registry_entries env modelIds suiteName suite config
    progressCallback returnImmediately w :
  registryOk (runningBenchmarks w) →
  let w' := (runBenchmark env modelIds suiteName suite config progressCallback
                          returnImmediately w).2 in
  ∃ l,
    trace w' = trace w ++ l ∧
    runningBenchmarks w' = replay l (runningBenchmarks w) ∧
    ∀ l1 l2, l = l1 ++ l2 →
      ∀ runId e, replay l1 (runningBenchmarks w) !! runId = Some e →
        wellFormed e ∧
        (Entry.status e ≠ running →
         (Entry.progress e = 100 ↔ Entry.status e = completed)).
Proof.
  intros Hok w'.
  destruct (run_entries_wellFormed env modelIds suiteName suite config progressCallback
                                   returnImmediately w)
    as (l & Htrace & Hregistry & Hall).
  exists l. split; [exact Htrace|]. split; [exact Hregistry|].
  intros l1 l2 -> runId e He.
  rewrite published_app in Hall. apply Forall_app in Hall as [Hall _].
  assert (wellFormed e) as Hwf by (by eapply (replay_ok l1)).
  split; [exact Hwf|]. by apply wellFormed_terminal.
Qed.

(** A run that fails after its only task has been counted publishes the
    progress values 0, 100, 0. *)
Lemma C3_progress_drops_on_failure :
  (Entry.status <$> published (trace lateFailure) = [running; running; failed]) ∧
  ¬ Sorted Z.le (Entry.progress <$> published (trace lateFailure)).
Proof.
  assert (Entry.progress <$> published (trace lateFailure) = [0; 100; 0]) as ->
    by (by vm_compute).
  split; [by vm_compute|].
  intros H. apply Sorted_inv in H as [H _]. apply Sorted_inv in H as [_ H].
  apply HdRel_inv in H. lia.
Qed.

(** A successful run goes through a state of the registry in which its
    entry has status [running] and progress 100: the state after the first
    five events, before the completed entry is written. *)
Lemma C4_running_at_full_progress :
  ¬ ∀ l1 l2, trace success = l1 ++ l2 →
      ∀ runId e, replay l1 (runningBenchmarks (initially false)) !! runId = Some e →
        (Entry.progress e = 100 ↔ Entry.status e = completed).
Proof.
  intros H.
  specialize (H (take 5 (trace success)) (drop 5 (trace success))
                (eq_sym (take_drop 5 _)) "id-0"%string (Entry.mk "id-0" running 100 None)).
  destruct H as [H _]; [by vm_compute|].
  by specialize (H eq_refl).
Qed.

Lemma C4_progress_of_registry_entries_witness :
  registryOk (runningBenchmarks (initially false)) ∧
  registryOk (runningBenchmarks success).
Proof.
  assert (registryOk (runningBenchmarks (initially false))) as Hok.
  { intros runId e He. simpl in He. by rewrite lookup_empty in He. }
  split; [exact Hok|].
  destruct (C4_progress_of_registry_entries (calm steady) ["m1"%string] "default" helloSuite
              (threeTimes true) false false (initially false) Hok)
    as (l & _ & Hregistry & Hstates).
  intros runId e He. unfold success in He. rewrite Hregistry in He.
  refine (proj1 (Hstates l [] _ runId e He)). by rewrite app_nil_r.
Defined.

(** In the world [initially], the descriptor of [m1] has the alias
    [phi-3-mini] and the model id [phi-3-mini-4k-instruct]; the three
    requests of a scenario carry the identifier that the orchestrator has
    cached, with and without streaming. *)
Example requests_carry_the_cached_id (streaming : bool) :
  omap (fun e => match e with Sent request => Some (model request) | _ => None end)
       (trace (runScenario (calm steady) "m1" hello (threeTimes streaming) false
                           (initially false)).2)
  = replicate 3 (LoadedModelInfo.id phiLoaded) ∧
  LoadedModelInfo.id phiLoaded ≠ Descriptor.alias phi ∧
  LoadedModelInfo.id phiLoaded ≠ Descriptor.model_id phi.
Proof. by destruct streaming; vm_compute. Qed.
